(** * Chroma emitters and rule serialisation

    A shallow embedding of [emitters.go] and [serialise.go]: the emitters
    that turn the groups of one regular-expression match into tokens, and
    the XML encoding and decoding of rules.  Go's [panic] is an explicit
    outcome ([Panic]); an [error] return value is a sum. *)

From Stdlib Require Import ZArith String List Lia.
From stdpp Require Import base option list strings gmap.

Set Warnings "-register-all".
Local Open Scope string_scope.
Local Open Scope list_scope.
Local Open Scope Z_scope.

(** ** Values shared by the emitters *)

(** [type TokenType int] *)
Definition TokenType := Z.

(** [Token]: a category and the text it covers. *)
Record Token := mkToken { Type_ : TokenType; Value : string }.

(** An [Iterator] is a Go function value yielding tokens one at a time; it
    is represented by the tokens it yields, [None] being the [nil]
    function value. *)
Definition Iterator := option (list Token).

Definition error := string.

(** What a Go [panic] carries: the string or the [error] given to [panic],
    or a run-time error raised by the language itself. *)
Inductive PanicValue :=
| PanicString (s : string)
| PanicError (err : error)
| RuntimeError (what : string).

Inductive Result (A : Type) :=
| Ok (a : A)
| Panic (p : PanicValue).
Arguments Ok {A} a.
Arguments Panic {A} p.

#[global] Instance Result_ret : MRet Result := fun A a => Ok a.
#[global] Instance Result_bind : MBind Result := fun A B f m =>
  match m with Ok a => f a | Panic p => Panic p end.
#[global] Instance Result_fmap : FMap Result := fun A B f m =>
  match m with Ok a => Ok (f a) | Panic p => Panic p end.

(** [len(s)] as a Go [int]. *)
Definition len {A} (s : list A) : Z := Z.of_nat (length s).

Definition index_out_of_range : PanicValue := RuntimeError "index out of range".
Definition nil_dereference : PanicValue :=
  RuntimeError "invalid memory address or nil pointer dereference".
Definition makeslice_cap : PanicValue := RuntimeError "makeslice: cap out of range".

(** [append(s, x)] *)
Definition append {A} (s : list A) (x : A) : list A := s ++ [x].

(** [s[i]] on a slice, evaluated for its value. *)
Definition index {A} (s : list A) (i : Z) : Result A :=
  if i <? 0 then Panic index_out_of_range
  else match s !! Z.to_nat i with
       | Some x => Ok x
       | None => Panic index_out_of_range
       end.

(** [TokeniseOptions], with the two fields the emitters set. *)
Record TokeniseOptions := mkTokeniseOptions { State : string; Nested : bool }.

(** The [Lexer] interface, with the two methods the emitters call:
    [Config().Name] and [Tokenise(options, text) (Iterator, error)]. *)
Record Lexer := mkLexer {
  Config_Name : string;
  Tokenise : option TokeniseOptions → string → Iterator + error
}.

(** [*regexp2.Regexp], seen through the one method used here. *)
Record Regexp := mkRegexp { GroupNameFromNumber : Z → string }.

Record CompiledRule := mkCompiledRule { Regexp_ : Regexp }.

(** [LexerState], with the fields the emitters read. *)
Record LexerState := mkLexerState {
  LexerState_Lexer : Lexer;
  LexerState_Rules : gmap string (list CompiledRule);
  LexerState_State : string;
  LexerState_Rule : Z;
  NamedGroups : gmap string string
}.

(** ** Emitters *)

(** The dynamic types an [Emitter] interface value can have in these
    files; a [nil] interface value is [None] of [option Emitter].
    [Emitters map[string]Emitter] is an association list read by its first
    binding of a key. *)
Inductive Emitter :=
| EmitterFunc (f : list string → LexerState → Result Iterator)
| byGroupsEmitter (Emitters : list (option Emitter))
| byGroupNamesEmitter (Emitters : list (string * option Emitter))
| usingEmitter (Lexer_ : string) (lexer : option Lexer)
| usingSelfEmitter (State_ : string)
| TokenTypeEmitter (t : TokenType).

(** [ByGroups(emitters...)] *)
Definition ByGroups (emitters : list (option Emitter)) : Emitter :=
  byGroupsEmitter emitters.

(** [ByGroupNames(emitters)] *)
Definition ByGroupNames (emitters : list (string * option Emitter)) : Emitter :=
  byGroupNamesEmitter emitters.

(** [Using(lexer)] *)
Definition Using (lexer : Lexer) : Emitter :=
  usingEmitter (Config_Name lexer) (Some lexer).

(** [UsingSelf(stateName)] *)
Definition UsingSelf (stateName : string) : Emitter :=
  usingSelfEmitter stateName.

(** [e := s[i]; k e] where [k] runs on the element found. *)
Definition index_with {A B} (k : A → Result B) : list A → nat → Result B :=
  fix go s i :=
    match s with
    | [] => Panic index_out_of_range
    | x :: s' => match i with O => k x | S i' => go s' i' end
    end.

(** [v, ok := m[key]]: [found v] when the key is bound, [missing]
    otherwise. *)
Definition map_with {V B} (found : V → B) (missing : B) (key : string)
  : list (string * V) → B :=
  fix go m :=
    match m with
    | [] => missing
    | (k, v) :: m' => if decide (k = key) then found v else go m'
    end.

(** [for i, x := range s { iterators = body i x iterators }], stopping at
    the first panic. *)
Definition range_with {A St} (body : nat → A → St → Result St)
  : list A → nat → St → Result St :=
  fix go s i acc :=
    match s with
    | [] => Ok acc
    | x :: s' =>
        match body i x acc with
        | Ok acc' => go s' (S i) acc'
        | Panic p => Panic p
        end
    end.

(** [for i := lo; i < hi; i++ { acc = body i acc }] *)
Definition for_with {St} (body : Z → St → Result St) (lo hi : Z) (acc : St)
  : Result St :=
  range_with (fun _ i acc => body i acc) (seqZ lo (hi - lo)) 0%nat acc.

(** Modelled from the spec: [TokenType.Emit] (direct token type) is not in
    these files; "the entire match becomes one token of a fixed category".
    The entire match is [groups[0]]. *)
Definition TokenType_Emit (t : TokenType) (groups : list string)
  (state : LexerState) : Result Iterator :=
  match groups with
  | [] => Panic index_out_of_range
  | whole :: _ => Ok (Some [mkToken t whole])
  end.

(** ** Mutators and rules *)

(** Modelled from the spec: the mutator types are declared outside these
    files; [serialise.go] names the five serialisable ones.  "Push(names...)",
    "Pop(n)", "Include(stateName)", "Combined(stateNames...)",
    "Multi(mutators...)"; a plain function value is the type-erased
    mutator. *)
Inductive Mutator :=
| MutatorFunc (f : LexerState → option error)
| includeMutator (State_ : string)
| combinedMutator (States_ : list string)
| multiMutator (Mutators : list Mutator)
| pushMutator (States_ : list string)
| popMutator (Depth : Z).

(** [Rule{Pattern, Type, Mutator}]; [Type] and [Mutator] are interface
    values and may be [nil]. *)
Record Rule := mkRule {
  Pattern : string;
  Rule_Type : option Emitter;
  Rule_Mutator : option Mutator
}.

(** [type Rules map[string][]Rule] *)
Abbreviation Rules := (gmap string (list Rule)).

(** ** XML tokens, encoder and decoder ([encoding/xml])

    The encoder is the sequence of tokens written so far and the decoder
    the sequence of tokens still to be read: the wire text between the two
    is the library's, and is taken to carry every token unchanged. *)

Record Attr := mkAttr { Attr_Name : string; Attr_Value : string }.

Record StartElement := mkStartElement { Name : string; Attrs : list Attr }.

Inductive XmlToken :=
| StartTok (start : StartElement)
| EndTok (name : string)
| CharData (text : string).

Definition Encoder := list XmlToken.
Definition Decoder := list XmlToken.

(** A Go call returning [error]: [Done] is a [nil] error. *)
Inductive Errored (A : Type) :=
| Done (a : A)
| Err (err : error).
Arguments Done {A} a.
Arguments Err {A} err.

#[global] Instance Errored_ret : MRet Errored := fun A a => Done a.
#[global] Instance Errored_bind : MBind Errored := fun A B f m =>
  match m with Done a => f a | Err err => Err err end.

(** [e.EncodeToken(t)]: a tag needs a name. *)
Definition EncodeToken (e : Encoder) (t : XmlToken) : Errored Encoder :=
  match t with
  | StartTok start =>
      if decide (Name start = "") then Err "xml: start tag with no name"
      else Done (append e t)
  | EndTok name =>
      if decide (name = "") then Err "xml: end tag with no name"
      else Done (append e t)
  | CharData _ => Done (append e t)
  end.

(** [d.Token()] *)
Definition Token_ (d : Decoder) : Errored (XmlToken * Decoder) :=
  match d with
  | [] => Err "EOF"
  | t :: d' => Done (t, d')
  end.

(** Reading up to the end of the element whose start tag has been read:
    the names of its direct children, in order, and the decoder after its
    end tag. *)
Fixpoint children (depth : nat) (acc : list string) (d : Decoder)
  : Errored (list string * Decoder) :=
  match d with
  | [] => Err "EOF"
  | StartTok start :: d' =>
      children (S depth)
        (match depth with O => append acc (Name start) | S _ => acc end) d'
  | EndTok _ :: d' =>
      match depth with
      | O => Done (acc, d')
      | S depth' => children depth' acc d'
      end
  | CharData _ :: d' => children depth acc d'
  end.

(** [d.Skip()] *)
Definition Skip (d : Decoder) : Errored Decoder :=
  match children 0 [] d with
  | Done (_, d') => Done d'
  | Err err => Err err
  end.

(** The value a struct field tagged [xml:"name,attr"] of type [string]
    takes from a start tag: every attribute of that name is assigned in
    turn, so the last one stays; the zero value when there is none. *)
Definition attr_field (name : string) (attrs : list Attr) : string :=
  fold_left (fun v a => if decide (Attr_Name a = name) then Attr_Value a else v)
    attrs "".

#[global] Instance Attr_eq_dec : EqDecision Attr.
Proof. solve_decision. Defined.
#[global] Instance StartElement_eq_dec : EqDecision StartElement.
Proof. solve_decision. Defined.
#[global] Instance XmlToken_eq_dec : EqDecision XmlToken.
Proof. solve_decision. Defined.

(** What the library does around a type's own [UnmarshalXML]: the method
    must have read the element up to and including its end tag. *)
Definition unmarshalInterface {A} (who : string)
  (UnmarshalXML : Decoder → StartElement → Errored (A * Decoder))
  (d : Decoder) (start : StartElement) : Errored (A * Decoder) :=
  match UnmarshalXML d start with
  | Err err => Err err
  | Done (v, d') =>
      let unconsumed :=
        Err ("xml: " +:+ who +:+ ".UnmarshalXML did not consume entire <"
             +:+ Name start +:+ "> element") in
      match Skip d with
      | Done rest =>
          if decide ((d' : list XmlToken) = rest) then Done (v, d') else unconsumed
      | Err _ => unconsumed
      end
  end.

(** [for _, x := range s { e = f e x }], stopping at the first error. *)
Definition each_with {A St} (f : St → A → Errored St) : list A → St → Errored St :=
  fix go s acc :=
    match s with
    | [] => Done acc
    | x :: s' =>
        match f acc x with
        | Done acc' => go s' acc'
        | Err err => Err err
        end
    end.

(** [xmlRuleState] and [xmlRules] *)
Record xmlRuleState := mkXmlRuleState {
  xmlRuleState_Name : string;
  xmlRuleState_Rules : list Rule
}.

Record xmlRules := mkXmlRules { States : list xmlRuleState }.

(** [xmlTokenType] *)
Record xmlTokenType := mkXmlTokenType { xmlTokenType_Type : string }.

Definition dquote : string := String (Ascii.ascii_of_nat 34) EmptyString.

(** [%q] of [fmt.Errorf], on a string with nothing to escape. *)
Definition fmt_q (s : string) : string := dquote +:+ s +:+ dquote.

(** ** Values for the examples *)

(** A [Concaterator] for the examples: on iterators none of which is
    [nil], one iterator over their tokens in order. *)
Definition example_Concaterator (iterators : list Iterator) : Iterator :=
  (fun its => concat its) <$> mapM id iterators.

(** An [EOF] token for the examples, and a [Concaterator] that leaves each
    iterator at its first [EOF]. *)
Definition example_EOF : Token := mkToken 0 "".

#[global] Instance Token_eq_dec : EqDecision Token.
Proof. solve_decision. Defined.

Fixpoint before_EOF (tokens : list Token) : list Token :=
  match tokens with
  | [] => []
  | token :: tokens =>
      if decide (token = example_EOF) then [] else token :: before_EOF tokens
  end.

Definition example_stopping_Concaterator (iterators : list Iterator) : Iterator :=
  (fun its => concat (before_EOF <$> its)) <$> mapM id iterators.

(** A wire for the examples: a control character other than tab, line feed
    and carriage return is read back as U+FFFD. *)
Definition replacement_character : string :=
  String (Ascii.ascii_of_nat 239)
    (String (Ascii.ascii_of_nat 191) (String (Ascii.ascii_of_nat 189) "")).

Fixpoint example_xml_text (text : string) : string :=
  match text with
  | EmptyString => EmptyString
  | String c text =>
      let n := Ascii.nat_of_ascii c in
      if (n <? 32)%nat && negb ((n =? 9)%nat || (n =? 10)%nat || (n =? 13)%nat)
      then replacement_character +:+ example_xml_text text
      else String c (example_xml_text text)
  end.

Definition example_Error : TokenType := -8.
Definition Keyword : TokenType := 1000.
Definition LiteralString : TokenType := 3100.
Definition Text : TokenType := 8000.

Definition example_TokenType_map : gmap TokenType string :=
  {[ example_Error := "Error"; Keyword := "Keyword";
     LiteralString := "LiteralString"; Text := "Text" ]}.

Definition example_TokenType_String (t : TokenType) : string :=
  default "" (example_TokenType_map !! t).

(** A lexer that makes one [Keyword] token of its text, and one whose
    [Tokenise] fails. *)
Definition go_lexer : Lexer :=
  mkLexer "go" (fun _ text => inl (Some [mkToken Keyword text])).

Definition broken_lexer : Lexer :=
  mkLexer "broken" (fun _ _ => inr "no such state").

(** The state after a match of [(?P<key>\w+)=(?P<value>\w+)] on [k=v], and
    after a match of a pattern without groups on [x]. *)
Definition key_value_state : LexerState :=
  mkLexerState broken_lexer
    {[ "root" := [mkCompiledRule (mkRegexp (fun i =>
                    if i =? 1 then "key" else if i =? 2 then "value" else ""))] ]}
    "root" 0
    {[ "0" := "k=v"; "key" := "k"; "value" := "v" ]}.

Definition no_groups_state : LexerState :=
  mkLexerState go_lexer
    {[ "root" := [mkCompiledRule (mkRegexp (fun _ => ""))] ]}
    "root" 0 {[ "0" := "x" ]}.

(** Mutators that are never written or read, for tables without
    mutators. *)
Definition no_MutatorKind (m : Mutator) : string := "".
Definition no_EncodeElement_mutator (e : Encoder) (m : Mutator)
  (start : StartElement) : Errored Encoder := Err "no mutator".
Definition no_DecodeElement_mutator (m : Mutator) (d : Decoder)
  (start : StartElement) : Errored (Mutator * Decoder) := Err "no mutator".

(** [Rules{"root": {{`x`, Using(go_lexer), nil}}}] *)
Definition using_table : Rules :=
  {[ "root" := [mkRule "x" (Some (Using go_lexer)) None] ]}.

Section Chroma.

(** [Error], the token type of input that could not be tokenised, and
    [Concaterator], which chains iterators: both are declared outside
    these files. *)
Variable Error : TokenType.
Variable Concaterator : list Iterator → Iterator.

(** [_TokenType_map], the generated table of the token types' names, the
    order in which one [range] over it visits its entries, and
    [TokenType.String()], generated with it. *)
Variable _TokenType_map : gmap TokenType string.
Variable range_TokenType_map : list (TokenType * string).
Variable TokenType_String : TokenType → string.

(** Of the mutators' declarations: the [MutatorKind()] of a serialisable
    mutator, and what [encoding/xml] does with their struct fields in
    [EncodeElement] and in [DecodeElement] into a new value of a template's
    type. *)
Variable MutatorKind : Mutator → string.
Variable EncodeElement_mutator : Encoder → Mutator → StartElement → Errored Encoder.
Variable DecodeElement_mutator : Mutator → Decoder → StartElement → Errored (Mutator * Decoder).

Fixpoint Emit (e : Emitter) (groups : list string) (state : LexerState)
  {struct e} : Result Iterator :=
  match e with
  | EmitterFunc f => f groups state
  | TokenTypeEmitter t => TokenType_Emit t groups state
  | byGroupsEmitter Emitters =>
      if len groups - 1 <? 0 then Panic makeslice_cap
      else if negb (len Emitters =? len groups - 1) then
        match TokenType_Emit Error groups state with
        | Ok it => Ok (Concaterator [it])
        | Panic p => Panic p
        end
      else
        match
          range_with (fun i group iterators =>
            index_with (fun e_i =>
              match e_i with
              | Some e' =>
                  match Emit e' [group] state with
                  | Ok it => Ok (append iterators it)
                  | Panic p => Panic p
                  end
              | None => Ok iterators
              end) Emitters i)
            (drop 1 groups) 0%nat []
        with
        | Ok iterators => Ok (Concaterator iterators)
        | Panic p => Panic p
        end
  | byGroupNamesEmitter Emitters =>
      let n := Z.of_nat (size (NamedGroups state)) in
      if n - 1 <? 0 then Panic makeslice_cap
      else if n - 1 =? 0 then
        map_with (fun emitter =>
            match emitter with
            | Some e' =>
                match Emit e' groups state with
                | Ok it => Ok (Concaterator [it])
                | Panic p => Panic p
                end
            | None => Panic nil_dereference
            end)
          (match TokenType_Emit Error groups state with
           | Ok it => Ok (Concaterator [it])
           | Panic p => Panic p
           end)
          "0" Emitters
      else
        match index (default [] (LexerState_Rules state !! LexerState_State state))
                (LexerState_Rule state) with
        | Panic p => Panic p
        | Ok rule =>
            let ruleRegex := Regexp_ rule in
            match
              for_with (fun i iterators =>
                let groupName := GroupNameFromNumber ruleRegex i in
                let group := default "" (NamedGroups state !! groupName) in
                map_with (fun emitter =>
                    match emitter with
                    | Some e' =>
                        match Emit e' [group] state with
                        | Ok it => Ok (append iterators it)
                        | Panic p => Panic p
                        end
                    | None => Ok iterators
                    end)
                  (match TokenType_Emit Error [group] state with
                   | Ok it => Ok (append iterators it)
                   | Panic p => Panic p
                   end)
                  groupName Emitters)
                1 n []
            with
            | Ok iterators => Ok (Concaterator iterators)
            | Panic p => Panic p
            end
        end
  | usingEmitter _ lexer =>
      match groups with
      | [] => Panic index_out_of_range
      | whole :: _ =>
          match lexer with
          | None => Panic nil_dereference
          | Some l =>
              match Tokenise l (Some (mkTokeniseOptions "root" true)) whole with
              | inl it => Ok it
              | inr err => Panic (PanicError err)
              end
          end
      end
  | usingSelfEmitter State_ =>
      match groups with
      | [] => Panic index_out_of_range
      | whole :: _ =>
          match Tokenise (LexerState_Lexer state)
                  (Some (mkTokeniseOptions State_ true)) whole with
          | inl it => Ok it
          | inr err => Panic (PanicError err)
          end
      end
  end.

Definition UsingByGroup_message : string :=
  "UsingByGroup expects number of emitters to be the same as len(groups)-1".

(** [UsingByGroup(sublexerGetFunc, sublexerNameGroup, codeGroup, emitters...)].
    [iterators] starts as [len(groups)-1] nil iterators and is assigned by
    index. *)
Definition UsingByGroup (sublexerGetFunc : string → option Lexer)
  (sublexerNameGroup codeGroup : Z) (emitters : list (option Emitter)) : Emitter :=
  EmitterFunc (fun groups state =>
    if negb (len emitters =? len groups - 1) then
      Panic (PanicString UsingByGroup_message)
    else
      match index groups sublexerNameGroup with
      | Panic p => Panic p
      | Ok name =>
          let sublexer := sublexerGetFunc name in
          match
            range_with (fun i group (iterators : list Iterator) =>
              let from_emitter :=
                match index emitters (Z.of_nat i) with
                | Panic p => Panic p
                | Ok None => Ok iterators
                | Ok (Some e_i) =>
                    match Emit e_i [group] state with
                    | Ok it => Ok (<[i:=it]> iterators)
                    | Panic p => Panic p
                    end
                end in
              match sublexer with
              | Some l =>
                  if Z.of_nat i =? codeGroup - 1 then
                    match index groups codeGroup with
                    | Panic p => Panic p
                    | Ok code =>
                        match Tokenise l None code with
                        | inl it => Ok (<[i:=it]> iterators)
                        | inr err => Panic (PanicError err)
                        end
                    end
                  else from_emitter
              | None => from_emitter
              end)
              (drop 1 groups) 0%nat
              (replicate (Z.to_nat (len groups - 1)) (None : Iterator))
          with
          | Ok iterators => Ok (Concaterator iterators)
          | Panic p => Panic p
          end
      end).

(** ** Serialisation of rules to XML *)

(** [EmitterKind()], for the emitters that are a [SerialisableEmitter];
    [EmitterFunc] has no such method.  The kind of a [TokenType] is the
    tag of the format comment, [<token type="Text"/>]. *)
Definition EmitterKind (e : Emitter) : option string :=
  match e with
  | EmitterFunc _ => None
  | byGroupsEmitter _ => Some "bygroups"
  | byGroupNamesEmitter _ => Some "bygroupnames"
  | usingEmitter _ _ => Some "using"
  | usingSelfEmitter _ => Some "usingself"
  | TokenTypeEmitter _ => Some "token"
  end.

(** [m.(SerialisableMutator)] succeeds on the five named mutators. *)
Definition SerialisableMutator (m : Mutator) : bool :=
  match m with
  | MutatorFunc _ => false
  | _ => true
  end.

Definition emitterTemplates : gmap string Emitter :=
  foldl (fun out emitter =>
           match EmitterKind emitter with
           | Some kind => <[kind:=emitter]> out
           | None => out
           end) ∅
    [byGroupsEmitter []; byGroupNamesEmitter []; usingEmitter "" None;
     usingSelfEmitter ""; TokenTypeEmitter 0].

Definition mutatorTemplates : gmap string Mutator :=
  foldl (fun out mutator => <[MutatorKind mutator:=mutator]> out) ∅
    [includeMutator ""; combinedMutator []; multiMutator [];
     pushMutator []; popMutator 0].

(** [TokenType.MarshalXML] *)
Definition TokenType_MarshalXML (t : TokenType) (e : Encoder)
  (start : StartElement) : Errored Encoder :=
  let start :=
    mkStartElement (Name start)
      (append (Attrs start) (mkAttr "type" (TokenType_String t))) in
  e ← EncodeToken e (StartTok start);
  EncodeToken e (EndTok (Name start)).

(** [e.EncodeElement(emitter, start)]: a [TokenType] has its own
    [MarshalXML]; the structs go through the library, field by field:
    a [string] field tagged [attr] is an attribute of the start tag, the
    field [lexer] (tagged [-]) is left out, the elements of [Emitters
    []Emitter] are written one after the other under the tag [emit], a
    [nil] one writing nothing, and a map or a function is refused. *)
Fixpoint EncodeElement_emitter (e : Encoder) (v : Emitter)
  (start : StartElement) {struct v} : Errored Encoder :=
  match v with
  | TokenTypeEmitter t => TokenType_MarshalXML t e start
  | usingEmitter Lexer_ _ =>
      e ← EncodeToken e (StartTok (mkStartElement (Name start)
             (append (Attrs start) (mkAttr "lexer" Lexer_))));
      EncodeToken e (EndTok (Name start))
  | usingSelfEmitter State_ =>
      e ← EncodeToken e (StartTok (mkStartElement (Name start)
             (append (Attrs start) (mkAttr "state" State_))));
      EncodeToken e (EndTok (Name start))
  | byGroupsEmitter Emitters =>
      e ← EncodeToken e (StartTok start);
      e ← each_with (fun e v_i =>
             match v_i with
             | Some v' => EncodeElement_emitter e v' (mkStartElement "emit" [])
             | None => Done e
             end) Emitters e;
      EncodeToken e (EndTok (Name start))
  | byGroupNamesEmitter _ =>
      Err "xml: unsupported type: map[string]chroma.Emitter"
  | EmitterFunc _ => Err "xml: unsupported type: chroma.EmitterFunc"
  end.

(** [Rule.MarshalXML] *)
Definition Rule_MarshalXML (r : Rule) (e : Encoder) : Errored Encoder :=
  let start :=
    mkStartElement "rule"
      (if decide (Pattern r = "") then [] else [mkAttr "pattern" (Pattern r)]) in
  e ← EncodeToken e (StartTok start);
  e ← match Rule_Type r with
      | Some emitter =>
          match EmitterKind emitter with
          | Some kind => EncodeElement_emitter e emitter (mkStartElement kind [])
          | None => Done e
          end
      | None => Done e
      end;
  e ← match Rule_Mutator r with
      | Some mutator =>
          if SerialisableMutator mutator then
            EncodeElement_mutator e mutator
              (mkStartElement (MutatorKind mutator) [])
          else Done e
      | None => Done e
      end;
  EncodeToken e (EndTok (Name start)).

(** [e.EncodeElement(xr, start)] on an [xmlRules]: a [state] element per
    state, with its [name] attribute and its rules, each written by
    [Rule.MarshalXML]. *)
Definition EncodeElement_xmlRules (e : Encoder) (xr : xmlRules)
  (start : StartElement) : Errored Encoder :=
  e ← EncodeToken e (StartTok start);
  e ← each_with (fun e state =>
         e ← EncodeToken e (StartTok (mkStartElement "state"
                [mkAttr "name" (xmlRuleState_Name state)]));
         e ← each_with (fun e r => Rule_MarshalXML r e)
                (xmlRuleState_Rules state) e;
         EncodeToken e (EndTok "state")) (States xr) e;
  EncodeToken e (EndTok (Name start)).

(** [Rules.MarshalXML]; [range_r] is the table's entries in the order in
    which [range r] visits them. *)
Definition Rules_MarshalXML (range_r : list (string * list Rule))
  (e : Encoder) : Errored Encoder :=
  let xr :=
    foldl (fun xr '(state, rules) =>
             mkXmlRules (append (States xr) (mkXmlRuleState state rules)))
      (mkXmlRules []) range_r in
  EncodeElement_xmlRules e xr (mkStartElement "rules" []).

(** [d.DecodeElement(&el, &start)] on an [xmlTokenType]. *)
Definition DecodeElement_xmlTokenType (d : Decoder) (start : StartElement)
  : Errored (xmlTokenType * Decoder) :=
  d' ← Skip d;
  Done (mkXmlTokenType (attr_field "type" (Attrs start)), d').

(** [TokenType.UnmarshalXML] *)
Definition TokenType_UnmarshalXML (d : Decoder) (start : StartElement)
  : Errored (TokenType * Decoder) :=
  '(el, d') ← DecodeElement_xmlTokenType d start;
  match List.find (fun '(_, text) => bool_decide (text = xmlTokenType_Type el))
          range_TokenType_map with
  | Some (tt_, _) => Done (tt_, d')
  | None => Err ("unknown TokenType " +:+ fmt_q (xmlTokenType_Type el))
  end.

(** [value, target := newFromTemplate(emitter); d.DecodeElement(target,
    &token); value()]: a new value of the template's type, filled by the
    library from the element.  An [Emitter] field is an interface: the
    library leaves each [emit] child [nil] and skips it; it has no way to
    fill a map. *)
Definition DecodeElement_emitter (template : Emitter) (d : Decoder)
  (start : StartElement) : Errored (Emitter * Decoder) :=
  match template with
  | TokenTypeEmitter _ =>
      '(t, d') ← unmarshalInterface "*chroma.TokenType" TokenType_UnmarshalXML d start;
      Done (TokenTypeEmitter t, d')
  | usingEmitter _ _ =>
      d' ← Skip d;
      Done (usingEmitter (attr_field "lexer" (Attrs start)) None, d')
  | usingSelfEmitter _ =>
      d' ← Skip d;
      Done (usingSelfEmitter (attr_field "state" (Attrs start)), d')
  | byGroupsEmitter _ =>
      '(names, d') ← children 0 [] d;
      Done (byGroupsEmitter
              ((fun _ => None) <$> filter (fun name => name = "emit") names), d')
  | byGroupNamesEmitter _ =>
      '(names, d') ← children 0 [] d;
      if decide ("emitters" ∈ names)
      then Err "unknown type map[string]chroma.Emitter"
      else Done (byGroupNamesEmitter [], d')
  | EmitterFunc _ => Err "unknown type chroma.EmitterFunc"
  end.

(** The [for] loop of [Rule.UnmarshalXML]; it reads one token per turn,
    and [fuel] is the number of tokens the decoder holds. *)
Fixpoint Rule_UnmarshalXML_loop (fuel : nat) (r : Rule) (d : Decoder)
  : Errored (Rule * Decoder) :=
  match fuel with
  | O => Err "EOF"
  | S fuel' =>
      match Token_ d with
      | Err err => Err err
      | Done (StartTok token, d) =>
          let kind := Name token in
          match emitterTemplates !! kind with
          | Some emitter =>
              match Rule_Type r with
              | Some _ => Err ("duplicate emitter " +:+ fmt_q kind)
              | None =>
                  match DecodeElement_emitter emitter d token with
                  | Err err => Err err
                  | Done (value, d) =>
                      Rule_UnmarshalXML_loop fuel'
                        (mkRule (Pattern r) (Some value) (Rule_Mutator r)) d
                  end
              end
          | None =>
              match mutatorTemplates !! kind with
              | Some mutator =>
                  match Rule_Mutator r with
                  | Some _ => Err ("duplicate mutator " +:+ fmt_q kind)
                  | None =>
                      match DecodeElement_mutator mutator d token with
                      | Err err => Err err
                      | Done (value, d) =>
                          Rule_UnmarshalXML_loop fuel'
                            (mkRule (Pattern r) (Rule_Type r) (Some value)) d
                      end
                  end
              | None => Rule_UnmarshalXML_loop fuel' r d
              end
          end
      | Done (EndTok _, d) => Done (r, d)
      | Done (CharData _, d) => Rule_UnmarshalXML_loop fuel' r d
      end
  end.

(** [Rule.UnmarshalXML] *)
Definition Rule_UnmarshalXML (r : Rule) (d : Decoder) (start : StartElement)
  : Errored (Rule * Decoder) :=
  let r :=
    match List.find (fun attr => bool_decide (Attr_Name attr = "pattern"))
            (Attrs start) with
    | Some attr => mkRule (Attr_Value attr) (Rule_Type r) (Rule_Mutator r)
    | None => r
    end in
  Rule_UnmarshalXML_loop (length d) r d.

(** [d.DecodeElement] on an [xmlRuleState]: its [name] attribute, and a
    new [Rule] decoded by [Rule.UnmarshalXML] for each [rule] child; other
    children are skipped. *)
Fixpoint DecodeElement_xmlRuleState_loop (fuel : nat) (state : xmlRuleState)
  (d : Decoder) : Errored (xmlRuleState * Decoder) :=
  match fuel with
  | O => Err "EOF"
  | S fuel' =>
      match Token_ d with
      | Err err => Err err
      | Done (StartTok token, d) =>
          if decide (Name token = "rule") then
            match unmarshalInterface "*chroma.Rule"
                    (Rule_UnmarshalXML (mkRule "" None None)) d token with
            | Err err => Err err
            | Done (r, d) =>
                DecodeElement_xmlRuleState_loop fuel'
                  (mkXmlRuleState (xmlRuleState_Name state)
                     (append (xmlRuleState_Rules state) r)) d
            end
          else
            match Skip d with
            | Err err => Err err
            | Done d => DecodeElement_xmlRuleState_loop fuel' state d
            end
      | Done (EndTok _, d) => Done (state, d)
      | Done (CharData _, d) => DecodeElement_xmlRuleState_loop fuel' state d
      end
  end.

Definition DecodeElement_xmlRuleState (d : Decoder) (start : StartElement)
  : Errored (xmlRuleState * Decoder) :=
  DecodeElement_xmlRuleState_loop (length d)
    (mkXmlRuleState (attr_field "name" (Attrs start)) []) d.

(** [d.DecodeElement(&xr, &start)] on an [xmlRules]. *)
Fixpoint DecodeElement_xmlRules_loop (fuel : nat) (xr : xmlRules)
  (d : Decoder) : Errored (xmlRules * Decoder) :=
  match fuel with
  | O => Err "EOF"
  | S fuel' =>
      match Token_ d with
      | Err err => Err err
      | Done (StartTok token, d) =>
          if decide (Name token = "state") then
            match DecodeElement_xmlRuleState d token with
            | Err err => Err err
            | Done (state, d) =>
                DecodeElement_xmlRules_loop fuel'
                  (mkXmlRules (append (States xr) state)) d
            end
          else
            match Skip d with
            | Err err => Err err
            | Done d => DecodeElement_xmlRules_loop fuel' xr d
            end
      | Done (EndTok _, d) => Done (xr, d)
      | Done (CharData _, d) => DecodeElement_xmlRules_loop fuel' xr d
      end
  end.

Definition DecodeElement_xmlRules (d : Decoder) (start : StartElement)
  : Errored (xmlRules * Decoder) :=
  DecodeElement_xmlRules_loop (length d) (mkXmlRules []) d.

(** [Rules.UnmarshalXML], on a receiver [r] that is not the [nil] map;
    [Rules_UnmarshalXML_receiver] below has both receivers. *)
Definition Rules_UnmarshalXML (r : Rules) (d : Decoder) (start : StartElement)
  : Errored (Rules * Decoder) :=
  '(xr, d) ← DecodeElement_xmlRules d start;
  Done (foldl (fun (r : Rules) state =>
                 <[xmlRuleState_Name state:=xmlRuleState_Rules state]> r)
          r (States xr), d).

(** The tokens [xml.Marshal(rules)] hands to its encoder. *)
Definition Marshal_Rules (range_r : list (string * list Rule))
  : Errored (list XmlToken) :=
  Rules_MarshalXML range_r [].

(** [xml.Unmarshal(data, &rules)], on the tokens read from [data] and a
    table [r] that is not [nil]: the first start tag opens the value.  A
    state read without rules has the [nil] slice, which the lists here do
    not tell from an empty one. *)
Fixpoint Unmarshal_Rules (data : list XmlToken) (r : Rules) : Errored Rules :=
  match data with
  | [] => Err "EOF"
  | StartTok start :: d =>
      match unmarshalInterface "*chroma.Rules" (Rules_UnmarshalXML r) d start with
      | Done (r, _) => Done r
      | Err err => Err err
      end
  | _ :: d => Unmarshal_Rules d r
  end.

(** The tokens [xml.Marshal(rule)] hands to its encoder. *)
Definition Marshal_Rule (r : Rule) : Errored (list XmlToken) :=
  Rule_MarshalXML r [].

(** [xml.Unmarshal(data, &rule)], on the tokens read from [data]. *)
Fixpoint Unmarshal_Rule (data : list XmlToken) (r : Rule) : Errored Rule :=
  match data with
  | [] => Err "EOF"
  | StartTok start :: d =>
      match unmarshalInterface "*chroma.Rule" (Rule_UnmarshalXML r) d start with
      | Done (r, _) => Done r
      | Err err => Err err
      end
  | _ :: d => Unmarshal_Rule d r
  end.

(** ** The format of the header comment of [serialise.go]

    [<rules> <state name="$STATE"> <rule [pattern="$PATTERN"]> [<$EMITTER
    ...>] </rule> </state> </rules>], for rules without mutator whose
    emitter, if any, is a token type of the table or a using-self
    emitter. *)
Definition plain_emitter (emitter : option Emitter) : Prop :=
  match emitter with
  | None => True
  | Some (TokenTypeEmitter t) => is_Some (_TokenType_map !! t)
  | Some (usingSelfEmitter _) => True
  | Some _ => False
  end.

Definition plain_rule (r : Rule) : Prop :=
  plain_emitter (Rule_Type r) ∧ Rule_Mutator r = None.

Definition rule_start (r : Rule) : StartElement :=
  mkStartElement "rule"
    (if decide (Pattern r = "") then [] else [mkAttr "pattern" (Pattern r)]).

Definition emitter_element (emitter : option Emitter) : list XmlToken :=
  match emitter with
  | Some (TokenTypeEmitter t) =>
      [StartTok (mkStartElement "token" [mkAttr "type" (TokenType_String t)]);
       EndTok "token"]
  | Some (usingSelfEmitter state) =>
      [StartTok (mkStartElement "usingself" [mkAttr "state" state]);
       EndTok "usingself"]
  | _ => []
  end.

Definition rule_element (r : Rule) : list XmlToken :=
  StartTok (rule_start r) :: emitter_element (Rule_Type r) ++ [EndTok "rule"].

Definition state_element (state : string * list Rule) : list XmlToken :=
  StartTok (mkStartElement "state" [mkAttr "name" state.1])
    :: concat (rule_element <$> state.2) ++ [EndTok "state"].

Definition rules_element (range_r : list (string * list Rule)) : list XmlToken :=
  StartTok (mkStartElement "rules" [])
    :: concat (state_element <$> range_r) ++ [EndTok "rules"].

(** A run of tokens that leaves the nesting depth as it found it. *)
Definition balanced (b : list XmlToken) : Prop :=
  ∀ depth acc d, ∃ acc', children depth acc (b ++ d) = children depth acc' d.

(** ** The wire

    What the decoder reads for a string that the encoder wrote as an
    attribute value or as character data: the library escapes it on writing
    and writes U+FFFD for what XML cannot carry.  The tag and attribute
    names written by these files are plain letters, read as written. *)
Variable xml_text : string → string.

Definition wire_token (t : XmlToken) : XmlToken :=
  match t with
  | StartTok start =>
      StartTok (mkStartElement (Name start)
                  ((fun a => mkAttr (Attr_Name a) (xml_text (Attr_Value a)))
                     <$> Attrs start))
  | EndTok name => EndTok name
  | CharData text => CharData (xml_text text)
  end.

(** The tokens read from the text of the tokens written. *)
Definition on_the_wire (data : list XmlToken) : list XmlToken :=
  wire_token <$> data.

(** The strings of a rule of the format above are read as written. *)
Definition carried_emitter (emitter : option Emitter) : Prop :=
  match emitter with
  | Some (TokenTypeEmitter t) =>
      xml_text (TokenType_String t) = TokenType_String t
  | Some (usingSelfEmitter state) => xml_text state = state
  | _ => True
  end.

Definition carried_rule (r : Rule) : Prop :=
  xml_text (Pattern r) = Pattern r ∧ carried_emitter (Rule_Type r).

Definition nil_map_assignment : PanicValue :=
  RuntimeError "assignment to entry in nil map".

(** [Rules.UnmarshalXML] on any receiver, [None] being the [nil] map:
    the assignment of a state to an entry of the receiver panics on it. *)
Definition Rules_UnmarshalXML_receiver (r : option Rules) (d : Decoder)
  (start : StartElement) : Result (Errored (option Rules * Decoder)) :=
  match DecodeElement_xmlRules d start with
  | Err err => Ok (Err err)
  | Done (xr, d) =>
      match r with
      | Some r =>
          Ok (Done (Some (foldl (fun (r : Rules) state =>
                                   <[xmlRuleState_Name state:=
                                       xmlRuleState_Rules state]> r)
                            r (States xr)), d))
      | None =>
          match States xr with
          | [] => Ok (Done (None, d))
          | _ :: _ => Panic nil_map_assignment
          end
      end
  end.

(** ** What the emitters are expected to produce *)

(** The outcomes of a run of emitter calls, in order: the first panic, or
    the iterators that were produced ([Ok None] stands for a call that was
    skipped). *)
Fixpoint gather {A} (parts : list (Result (option A))) : Result (list A) :=
  match parts with
  | [] => Ok []
  | Panic p :: _ => Panic p
  | Ok part :: parts' =>
      match gather parts' with
      | Ok rest => Ok (match part with Some a => a :: rest | None => rest end)
      | Panic p => Panic p
      end
  end.

(** The same when every call fills a slot. *)
Fixpoint collect {A} (parts : list (Result A)) : Result (list A) :=
  match parts with
  | [] => Ok []
  | Panic p :: _ => Panic p
  | Ok part :: parts' =>
      match collect parts' with
      | Ok rest => Ok (part :: rest)
      | Panic p => Panic p
      end
  end.

(** [emitters[key]] as a value: [None] when the key is not bound. *)
Definition map_get {V} (key : string) (m : list (string * V)) : option V :=
  map_with Some None key m.

(** By-groups: emitter [i] on the text of group [i], an absent emitter
    skipping its group. *)
Definition group_part (state : LexerState) (emitter : option Emitter)
  (group : string) : Result (option Iterator) :=
  match emitter with
  | Some e => Some <$> Emit e [group] state
  | None => Ok None
  end.

(** By-group-names: what the group of number [i] contributes. *)
Definition named_group_part (emitters : list (string * option Emitter))
  (state : LexerState) (ruleRegex : Regexp) (i : Z) : Result (option Iterator) :=
  let groupName := GroupNameFromNumber ruleRegex i in
  let group := default "" (NamedGroups state !! groupName) in
  match map_get groupName emitters with
  | None => Ok (Some (Some [mkToken Error group]))
  | Some None => Ok None
  | Some (Some e) => Some <$> Emit e [group] state
  end.

(** Using-by-group: the fallback emitter of position [i] on a group's
    text (a [nil] emitter leaves the slot [nil]), and the sub-lexer on the
    code group's text. *)
Definition fallback_slot (emitters : list (option Emitter)) (state : LexerState)
  (i : nat) (group : string) : Result Iterator :=
  match emitters !! i with
  | Some (Some e) => Emit e [group] state
  | Some None => Ok None
  | None => Panic index_out_of_range
  end.

Definition sublexer_slot (sublexer : Lexer) (code : string) : Result Iterator :=
  match Tokenise sublexer None code with
  | inl it => Ok it
  | inr err => Panic (PanicError err)
  end.

Definition UsingByGroup_slot (sublexer : option Lexer) (codeGroup : Z)
  (emitters : list (option Emitter)) (state : LexerState)
  (i : nat) (group : string) : Result Iterator :=
  match sublexer with
  | Some l =>
      if Z.of_nat i =? codeGroup - 1 then sublexer_slot l group
      else fallback_slot emitters state i group
  | None => fallback_slot emitters state i group
  end.

(** The body of the loop of [UsingByGroup], named for the proofs. *)
Definition UsingByGroup_body (sublexer : option Lexer) (codeGroup : Z)
  (emitters : list (option Emitter)) (groups : list string) (state : LexerState)
  (i : nat) (group : string) (iterators : list Iterator) : Result (list Iterator) :=
  let from_emitter :=
    match index emitters (Z.of_nat i) with
    | Panic p => Panic p
    | Ok None => Ok iterators
    | Ok (Some e_i) =>
        match Emit e_i [group] state with
        | Ok it => Ok (<[i:=it]> iterators)
        | Panic p => Panic p
        end
    end in
  match sublexer with
  | Some l =>
      if Z.of_nat i =? codeGroup - 1 then
        match index groups codeGroup with
        | Panic p => Panic p
        | Ok code =>
            match Tokenise l None code with
            | inl it => Ok (<[i:=it]> iterators)
            | inr err => Panic (PanicError err)
            end
        end
      else from_emitter
  | None => from_emitter
  end.

(** ** Properties of the emitters *)

Lemma Emit_byGroups (es : list (option Emitter)) groups state :
  Emit (byGroupsEmitter es) groups state =
  if len groups - 1 <? 0 then Panic makeslice_cap
  else if negb (len es =? len groups - 1) then
    match TokenType_Emit Error groups state with
    | Ok it => Ok (Concaterator [it])
    | Panic p => Panic p
    end
  else
    match
      range_with (fun i group iterators =>
        index_with (fun e_i =>
          match e_i with
          | Some e' =>
              match Emit e' [group] state with
              | Ok it => Ok (append iterators it)
              | Panic p => Panic p
              end
          | None => Ok iterators
          end) es i)
        (drop 1 groups) 0%nat []
    with
    | Ok iterators => Ok (Concaterator iterators)
    | Panic p => Panic p
    end.
Proof. reflexivity. Qed.

Lemma index_with_middle {A B} (k : A → Result B) (pre : list A) x rest :
  index_with k (pre ++ x :: rest) (length pre) = k x.
Proof. induction pre as [|y pre IH]; simpl; [reflexivity | exact IH]. Qed.

Lemma byGroups_loop state (caps : list string) :
  ∀ (pre es : list (option Emitter)) (acc : list Iterator),
    length es = length caps →
    range_with (fun i group iterators =>
      index_with (fun e_i =>
        match e_i with
        | Some e' =>
            match Emit e' [group] state with
            | Ok it => Ok (append iterators it)
            | Panic p => Panic p
            end
        | None => Ok iterators
        end) (pre ++ es) i) caps (length pre) acc =
    match gather (zip_with (group_part state) es caps) with
    | Ok its => Ok (acc ++ its)
    | Panic p => Panic p
    end.
Proof.
  induction caps as [|group caps IH]; intros pre es acc Hlen.
  - destruct es; [|discriminate]. simpl. by rewrite app_nil_r.
  - destruct es as [|e es]; [discriminate|]. injection Hlen as Hlen.
    cbn [range_with zip_with gather]. rewrite index_with_middle.
    destruct e as [e|]; cbn [group_part].
    + destruct (Emit e [group] state) as [it|p]; cbn; [|reflexivity].
      specialize (IH (pre ++ [Some e]) es (append acc it) Hlen).
      rewrite length_app, Nat.add_1_r, <- app_assoc in IH. cbn in IH.
      rewrite IH. destruct (gather _); [|reflexivity].
      unfold append. by rewrite <- app_assoc.
    + specialize (IH (pre ++ [None]) es acc Hlen).
      rewrite length_app, Nat.add_1_r, <- app_assoc in IH. cbn in IH.
      rewrite IH. by destruct (gather _).
Qed.

(** [Concaterator] on iterators none of which is [nil]: one iterator over
    their tokens, in the order of the arguments. *)
Hypothesis Concaterator_tokens :
  ∀ its : list (list Token), Concaterator (Some <$> its) = Some (concat its).

Lemma len_cons {A} (x : A) (s : list A) : len (x :: s) - 1 = len s.
Proof. unfold len. rewrite length_cons. lia. Qed.

Lemma len_eq {A B} (s : list A) (s' : list B) :
  (len s =? len s') = bool_decide (length s = length s').
Proof.
  unfold len. case_bool_decide as H.
  - rewrite H. apply Z.eqb_refl.
  - apply Z.eqb_neq. lia.
Qed.

(** C2: when the number of emitters given to by-groups differs from the
    number of capture groups of the match, [Emit] does not panic and yields
    exactly one token, of type [Error], whose text is the whole match. *)
Theorem byGroups_Emit_count_mismatch (emitters : list (option Emitter))
  (whole : string) (caps : list string) (state : LexerState) :
  length emitters ≠ length caps →
  Emit (ByGroups emitters) (whole :: caps) state = Ok (Some [mkToken Error whole]).
Proof.
  intros Hne. unfold ByGroups. rewrite Emit_byGroups, len_cons, len_eq.
  replace (len caps <? 0) with false by (unfold len; symmetry; apply Z.ltb_ge; lia).
  rewrite bool_decide_eq_false_2 by exact Hne. cbn.
  exact (f_equal Ok (Concaterator_tokens [[mkToken Error whole]])).
Qed.

(** C3: when by-groups is given as many emitters as the match has capture
    groups, emitter [i] is called on the text of group [i] alone, a [nil]
    emitter skips its group, and the iterators obtained are chained in the
    order of the groups. *)
Theorem byGroups_Emit_by_position (emitters : list (option Emitter))
  (whole : string) (caps : list string) (state : LexerState) :
  length emitters = length caps →
  Emit (ByGroups emitters) (whole :: caps) state =
  Concaterator <$>
    gather (zip_with (fun emitter group =>
                        match emitter with
                        | Some e => Some <$> Emit e [group] state
                        | None => Ok None
                        end) emitters caps).
Proof.
  intros Hlen. unfold ByGroups. rewrite Emit_byGroups, len_cons, len_eq.
  replace (len caps <? 0) with false by (unfold len; symmetry; apply Z.ltb_ge; lia).
  rewrite bool_decide_eq_true_2 by exact Hlen. cbn [negb drop].
  pose proof (byGroups_loop state caps [] emitters [] Hlen) as Hloop.
  cbn [app length] in Hloop. rewrite drop_0, Hloop.
  change (zip_with _ emitters caps) with (zip_with (group_part state) emitters caps).
  by destruct (gather _).
Qed.

(** C5: when the number of fallback emitters given to using-by-group
    differs from the number of capture groups, [Emit] panics at once, before
    the sub-lexer is looked up or any emitter is called; by-groups, on the
    same groups, yields an [Error] token instead. *)
Theorem UsingByGroup_count_mismatch (sublexerGetFunc : string → option Lexer)
  (sublexerNameGroup codeGroup : Z) (emitters : list (option Emitter))
  (groups : list string) (state : LexerState) :
  len emitters ≠ len groups - 1 →
  Emit (UsingByGroup sublexerGetFunc sublexerNameGroup codeGroup emitters)
    groups state = Panic (PanicString UsingByGroup_message)
  ∧ ∀ whole caps, groups = whole :: caps →
      Emit (ByGroups emitters) groups state =
      Ok (Concaterator [Some [mkToken Error whole]]).
Proof.
  intros Hne. split.
  - cbn. by rewrite (proj2 (Z.eqb_neq _ _) Hne).
  - intros whole caps ->. unfold ByGroups.
    rewrite Emit_byGroups. rewrite (proj2 (Z.eqb_neq _ _) Hne).
    rewrite len_cons.
    replace (len caps <? 0) with false by (unfold len; symmetry; apply Z.ltb_ge; lia).
    reflexivity.
Qed.

(** C7: when the sub-lexer's [Tokenise] returns an error, a using emitter
    and a using-self emitter panic with that error: no iterator and no
    [Error] token is produced, and an enclosing by-groups emitter passes
    the panic on. *)
Theorem using_Tokenise_failure_panics (lexer : Lexer) (whole : string)
  (rest : list string) (state : LexerState) (err : error) :
  (Tokenise lexer (Some (mkTokeniseOptions "root" true)) whole = inr err →
   Emit (Using lexer) (whole :: rest) state = Panic (PanicError err))
  ∧ (∀ stateName,
       Tokenise (LexerState_Lexer state)
         (Some (mkTokeniseOptions stateName true)) whole = inr err →
       Emit (UsingSelf stateName) (whole :: rest) state = Panic (PanicError err))
  ∧ (∀ match_,
       Tokenise lexer (Some (mkTokeniseOptions "root" true)) whole = inr err →
       Emit (ByGroups [Some (Using lexer)]) [match_; whole] state =
       Panic (PanicError err)).
Proof.
  split; [|split].
  - intros H. cbn. by rewrite H.
  - intros stateName H. cbn. by rewrite H.
  - intros match_ H. cbn. by rewrite H.
Qed.

Lemma Emit_byGroupNames (emitters : list (string * option Emitter)) groups state :
  Emit (byGroupNamesEmitter emitters) groups state =
  let n := Z.of_nat (size (NamedGroups state)) in
  if n - 1 <? 0 then Panic makeslice_cap
  else if n - 1 =? 0 then
    map_with (fun emitter =>
        match emitter with
        | Some e' =>
            match Emit e' groups state with
            | Ok it => Ok (Concaterator [it])
            | Panic p => Panic p
            end
        | None => Panic nil_dereference
        end)
      (match TokenType_Emit Error groups state with
       | Ok it => Ok (Concaterator [it])
       | Panic p => Panic p
       end)
      "0" emitters
  else
    match index (default [] (LexerState_Rules state !! LexerState_State state))
            (LexerState_Rule state) with
    | Panic p => Panic p
    | Ok rule =>
        let ruleRegex := Regexp_ rule in
        match
          for_with (fun i iterators =>
            let groupName := GroupNameFromNumber ruleRegex i in
            let group := default "" (NamedGroups state !! groupName) in
            map_with (fun emitter =>
                match emitter with
                | Some e' =>
                    match Emit e' [group] state with
                    | Ok it => Ok (append iterators it)
                    | Panic p => Panic p
                    end
                | None => Ok iterators
                end)
              (match TokenType_Emit Error [group] state with
               | Ok it => Ok (append iterators it)
               | Panic p => Panic p
               end)
              groupName emitters)
            1 n []
        with
        | Ok iterators => Ok (Concaterator iterators)
        | Panic p => Panic p
        end
    end.
Proof. reflexivity. Qed.

Lemma map_with_get {V B} (found : V → B) (missing : B) key (m : list (string * V)) :
  map_with found missing key m =
  match map_get key m with Some v => found v | None => missing end.
Proof.
  unfold map_get. induction m as [|[k v] m IH]; cbn; [reflexivity|].
  destruct (decide (k = key)); [reflexivity | exact IH].
Qed.

Lemma byGroupNames_loop emitters state ruleRegex (numbers : list Z) :
  ∀ (k : nat) (acc : list Iterator),
    range_with (fun _ i iterators =>
      let groupName := GroupNameFromNumber ruleRegex i in
      let group := default "" (NamedGroups state !! groupName) in
      map_with (fun emitter =>
          match emitter with
          | Some e' =>
              match Emit e' [group] state with
              | Ok it => Ok (append iterators it)
              | Panic p => Panic p
              end
          | None => Ok iterators
          end)
        (match TokenType_Emit Error [group] state with
         | Ok it => Ok (append iterators it)
         | Panic p => Panic p
         end)
        groupName emitters) numbers k acc =
    match gather (named_group_part emitters state ruleRegex <$> numbers) with
    | Ok its => Ok (acc ++ its)
    | Panic p => Panic p
    end.
Proof.
  induction numbers as [|i numbers IH]; intros k acc.
  - cbn. by rewrite app_nil_r.
  - cbn [range_with fmap list_fmap gather]. cbv zeta.
    rewrite map_with_get. unfold named_group_part at 1.
    destruct (map_get _ emitters) as [[e|]|]; cbn.
    + destruct (Emit e _ state) as [it|p]; cbn; [|reflexivity].
      rewrite IH. destruct (gather _); [|reflexivity].
      unfold append. by rewrite <- app_assoc.
    + rewrite IH. by destruct (gather _).
    + rewrite IH. destruct (gather _); [|reflexivity].
      unfold append. by rewrite <- app_assoc.
Qed.

(** The by-group-names emitter on a match with capture groups, as one
    equation. *)
Lemma byGroupNames_Emit_groups emitters groups state rule :
  (2 ≤ size (NamedGroups state))%nat →
  index (default [] (LexerState_Rules state !! LexerState_State state))
    (LexerState_Rule state) = Ok rule →
  Emit (ByGroupNames emitters) groups state =
  Concaterator <$>
    gather (named_group_part emitters state (Regexp_ rule)
              <$> seqZ 1 (Z.of_nat (size (NamedGroups state)) - 1)).
Proof.
  intros Hsize Hrule. unfold ByGroupNames. rewrite Emit_byGroupNames. cbv zeta.
  replace (_ - 1 <? 0) with false by (symmetry; apply Z.ltb_ge; lia).
  replace (_ - 1 =? 0) with false by (symmetry; apply Z.eqb_neq; lia).
  rewrite Hrule. unfold for_with. rewrite byGroupNames_loop. cbn [app].
  by destruct (gather _).
Qed.

(** The by-group-names emitter on a match without capture groups. *)
Lemma byGroupNames_Emit_no_groups emitters groups state :
  size (NamedGroups state) = 1%nat →
  Emit (ByGroupNames emitters) groups state =
  match map_get "0" emitters with
  | Some (Some e) =>
      match Emit e groups state with
      | Ok it => Ok (Concaterator [it])
      | Panic p => Panic p
      end
  | Some None => Panic nil_dereference
  | None =>
      match TokenType_Emit Error groups state with
      | Ok it => Ok (Concaterator [it])
      | Panic p => Panic p
      end
  end.
Proof.
  intros Hsize. unfold ByGroupNames. rewrite Emit_byGroupNames. cbv zeta.
  rewrite Hsize. cbn [Z.of_nat Z.sub Z.ltb Z.eqb Z.compare Z.add Z.opp Z.pos_sub Pos.pred_double].
  rewrite map_with_get. by destruct (map_get "0" emitters) as [[e|]|].
Qed.

(** C4: on a match with capture groups, the by-group-names emitter goes
    through the groups in order.  A group whose name has no entry in the
    map yields one [Error] token with that group's text and the run goes on;
    a group whose entry is [nil] is skipped; a group with an emitter is
    given to it alone. *)
Theorem byGroupNames_Emit_named_groups (emitters : list (string * option Emitter))
  (groups : list string) (state : LexerState) (rule : CompiledRule) :
  (2 ≤ size (NamedGroups state))%nat →
  index (default [] (LexerState_Rules state !! LexerState_State state))
    (LexerState_Rule state) = Ok rule →
  ∃ parts : list (Result (option Iterator)),
    length parts = (size (NamedGroups state) - 1)%nat
    ∧ Emit (ByGroupNames emitters) groups state = Concaterator <$> gather parts
    ∧ ∀ i : nat, (1 ≤ i < size (NamedGroups state))%nat →
        let groupName := GroupNameFromNumber (Regexp_ rule) (Z.of_nat i) in
        let group := default "" (NamedGroups state !! groupName) in
        (map_get groupName emitters = None →
         parts !! (i - 1)%nat = Some (Ok (Some (Some [mkToken Error group]))))
        ∧ (map_get groupName emitters = Some None →
           parts !! (i - 1)%nat = Some (Ok None))
        ∧ (∀ e, map_get groupName emitters = Some (Some e) →
             parts !! (i - 1)%nat = Some (Some <$> Emit e [group] state)).
Proof.
  intros Hsize Hrule.
  exists (named_group_part emitters state (Regexp_ rule)
            <$> seqZ 1 (Z.of_nat (size (NamedGroups state)) - 1)).
  split; [|split].
  - rewrite length_fmap, length_seqZ. lia.
  - by apply byGroupNames_Emit_groups.
  - intros i Hi groupName group.
    assert (Hpart : (named_group_part emitters state (Regexp_ rule)
                       <$> seqZ 1 (Z.of_nat (size (NamedGroups state)) - 1))
                    !! (i - 1)%nat
                    = Some (named_group_part emitters state (Regexp_ rule) (Z.of_nat i))).
    { rewrite list_lookup_fmap, lookup_seqZ_lt by lia. cbn. do 3 f_equal. lia. }
    subst groupName group.
    split; [|split]; intros; (etransitivity; [exact Hpart|]);
      unfold named_group_part; cbv zeta;
      match goal with H : map_get _ _ = _ |- _ => by rewrite H end.
Qed.

Lemma Emit_UsingByGroup sublexerGetFunc sublexerNameGroup codeGroup emitters
  groups state :
  Emit (UsingByGroup sublexerGetFunc sublexerNameGroup codeGroup emitters)
    groups state =
  if negb (len emitters =? len groups - 1) then
    Panic (PanicString UsingByGroup_message)
  else
    match index groups sublexerNameGroup with
    | Panic p => Panic p
    | Ok name =>
        match
          range_with
            (UsingByGroup_body (sublexerGetFunc name) codeGroup emitters groups state)
            (drop 1 groups) 0%nat
            (replicate (Z.to_nat (len groups - 1)) (None : Iterator))
        with
        | Ok iterators => Ok (Concaterator iterators)
        | Panic p => Panic p
        end
    end.
Proof. reflexivity. Qed.

Lemma index_nat {A} (s : list A) (i : nat) :
  index s (Z.of_nat i) =
  match s !! i with Some x => Ok x | None => Panic index_out_of_range end.
Proof.
  unfold index. replace (Z.of_nat i <? 0) with false
    by (symmetry; apply Z.ltb_ge; lia).
  by rewrite Nat2Z.id.
Qed.

Lemma UsingByGroup_step sublexer codeGroup emitters state whole
  (pre : list string) group (caps : list string)
  (filled : list Iterator) (rest : list Iterator) :
  length filled = length pre →
  UsingByGroup_body sublexer codeGroup emitters (whole :: pre ++ group :: caps)
    state (length pre) group (filled ++ None :: rest) =
  match UsingByGroup_slot sublexer codeGroup emitters state (length pre) group with
  | Ok it => Ok (filled ++ it :: rest)
  | Panic p => Panic p
  end.
Proof.
  intros Hlen.
  assert (Hins : ∀ it : Iterator,
             <[length pre:=it]> (filled ++ None :: rest) = filled ++ it :: rest).
  { intros it. rewrite insert_app_r_alt by lia.
    by rewrite Hlen, Nat.sub_diag. }
  assert (Hfrom :
    match index emitters (Z.of_nat (length pre)) with
    | Panic p => Panic p
    | Ok None => Ok (filled ++ None :: rest)
    | Ok (Some e_i) =>
        match Emit e_i [group] state with
        | Ok it => Ok (<[length pre:=it]> (filled ++ None :: rest))
        | Panic p => Panic p
        end
    end =
    match fallback_slot emitters state (length pre) group with
    | Ok it => Ok (filled ++ it :: rest)
    | Panic p => Panic p
    end).
  { rewrite index_nat. unfold fallback_slot.
    destruct (emitters !! length pre) as [[e|]|]; [|reflexivity..].
    destruct (Emit e [group] state); [|reflexivity]. by rewrite Hins. }
  unfold UsingByGroup_body, UsingByGroup_slot. cbv zeta.
  destruct sublexer as [l|]; [|exact Hfrom].
  destruct (Z.of_nat (length pre) =? codeGroup - 1) eqn:Hcode; [|exact Hfrom].
  apply Z.eqb_eq in Hcode.
  replace codeGroup with (Z.of_nat (S (length pre))) by lia.
  rewrite index_nat.
  change ((whole :: pre ++ group :: caps) !! S (length pre))
    with ((pre ++ group :: caps) !! length pre).
  rewrite (list_lookup_middle pre caps group (length pre) eq_refl).
  unfold sublexer_slot. destruct (Tokenise l None group); [|reflexivity].
  by rewrite Hins.
Qed.

Lemma UsingByGroup_loop sublexer codeGroup emitters state whole
  (caps : list string) :
  ∀ (pre : list string) (filled : list Iterator),
    length filled = length pre →
    range_with
      (UsingByGroup_body sublexer codeGroup emitters (whole :: pre ++ caps) state)
      caps (length pre) (filled ++ replicate (length caps) None) =
    match
      collect (imap (fun i => UsingByGroup_slot sublexer codeGroup emitters state
                                (length pre + i)) caps)
    with
    | Ok its => Ok (filled ++ its)
    | Panic p => Panic p
    end.
Proof.
  induction caps as [|group caps IH]; intros pre filled Hlen.
  - cbn. reflexivity.
  - cbn [range_with length replicate imap collect].
    rewrite UsingByGroup_step by exact Hlen.
    rewrite Nat.add_0_r.
    destruct (UsingByGroup_slot _ _ _ _ (length pre) group) as [it|p];
      [|reflexivity].
    specialize (IH (pre ++ [group]) (filled ++ [it])).
    rewrite !length_app, <- !app_assoc in IH. cbn [app length] in IH.
    replace (length pre + 1)%nat with (S (length pre)) in IH by lia.
    rewrite IH by lia.
    rewrite (imap_ext _ (UsingByGroup_slot sublexer codeGroup emitters state
                           ∘ Nat.add (length pre) ∘ S) caps)
      by (intros; cbn; f_equal; lia).
    clear IH. unfold compose. cbv beta. destruct (collect _); [|reflexivity].
    by rewrite <- app_assoc.
Qed.

(** C6: with as many fallback emitters as capture groups, using-by-group
    fills one slot per group, in order, and chains them.  When the resolver
    returns no lexer for the captured name, every slot, the code group's
    too, is filled by the fallback emitter of its position on the group's
    text.  When it returns a lexer, the slot of the code group is filled by
    that lexer's [Tokenise] on the code group's text, and the other slots as
    before. *)
Theorem UsingByGroup_code_group (sublexerGetFunc : string → option Lexer)
  (sublexerNameGroup codeGroup : Z) (emitters : list (option Emitter))
  (whole : string) (caps : list string) (state : LexerState) (name : string) :
  length emitters = length caps →
  index (whole :: caps) sublexerNameGroup = Ok name →
  (sublexerGetFunc name = None →
   Emit (UsingByGroup sublexerGetFunc sublexerNameGroup codeGroup emitters)
     (whole :: caps) state =
   Concaterator <$> collect (imap (fallback_slot emitters state) caps))
  ∧ (∀ sublexer, sublexerGetFunc name = Some sublexer →
     Emit (UsingByGroup sublexerGetFunc sublexerNameGroup codeGroup emitters)
       (whole :: caps) state =
     Concaterator <$>
       collect (imap (fun i group =>
                        if Z.of_nat i =? codeGroup - 1
                        then sublexer_slot sublexer group
                        else fallback_slot emitters state i group) caps)).
Proof.
  intros Hlen Hname.
  assert (Heq :
    Emit (UsingByGroup sublexerGetFunc sublexerNameGroup codeGroup emitters)
      (whole :: caps) state =
    Concaterator <$>
      collect (imap (UsingByGroup_slot (sublexerGetFunc name) codeGroup
                       emitters state) caps)).
  { rewrite Emit_UsingByGroup, len_cons, len_eq.
    rewrite bool_decide_eq_true_2 by exact Hlen. cbn [negb].
    rewrite Hname. cbn [drop]. rewrite drop_0.
    unfold len. rewrite Nat2Z.id.
    pose proof (UsingByGroup_loop (sublexerGetFunc name) codeGroup emitters
                  state whole caps [] [] eq_refl) as Hloop.
    cbn [app length] in Hloop. unfold Iterator in Hloop |- *. rewrite Hloop.
    by destruct (collect _). }
  split.
  - intros Hnone. rewrite Heq, Hnone. reflexivity.
  - intros sublexer Hsome. rewrite Heq, Hsome. reflexivity.
Qed.

(** ** Properties of the serialisation *)

(** One [range] over [_TokenType_map] visits each of its entries once, in
    some order; [String()] of a token type in the table is its name there;
    no name stands for two token types. *)
Hypothesis range_TokenType_map_visits :
  range_TokenType_map ≡ₚ map_to_list _TokenType_map.
Hypothesis TokenType_String_canonical :
  ∀ t name, _TokenType_map !! t = Some name → TokenType_String t = name.
Hypothesis TokenType_names_distinct :
  ∀ t1 t2 name,
    _TokenType_map !! t1 = Some name → _TokenType_map !! t2 = Some name → t1 = t2.

Lemma range_TokenType_map_elem t name :
  In (t, name) range_TokenType_map ↔ _TokenType_map !! t = Some name.
Proof.
  rewrite <- list_elem_of_In, range_TokenType_map_visits.
  apply elem_of_map_to_list.
Qed.

Lemma TokenType_lookup_unknown name :
  (∀ t, _TokenType_map !! t ≠ Some name) →
  List.find (fun '(_, text) => bool_decide (text = name)) range_TokenType_map = None.
Proof.
  intros Hnone.
  destruct (List.find _ range_TokenType_map) as [[t text]|] eqn:Hfind;
    [|reflexivity].
  apply find_some in Hfind as [Hin Htext].
  apply bool_decide_eq_true in Htext as ->.
  apply range_TokenType_map_elem in Hin. by destruct (Hnone t).
Qed.

Lemma TokenType_lookup_known t name :
  _TokenType_map !! t = Some name →
  ∃ text,
    List.find (fun '(_, text) => bool_decide (text = name)) range_TokenType_map
    = Some (t, text).
Proof.
  intros Ht.
  destruct (List.find _ range_TokenType_map) as [[t' text]|] eqn:Hfind.
  - apply find_some in Hfind as [Hin Htext].
    apply bool_decide_eq_true in Htext as ->.
    apply range_TokenType_map_elem in Hin.
    rewrite (TokenType_names_distinct t t' name Ht Hin). by exists name.
  - apply range_TokenType_map_elem in Ht.
    pose proof (find_none _ _ Hfind _ Ht) as Hfalse. cbn in Hfalse.
    by rewrite bool_decide_eq_true_2 in Hfalse.
Qed.

Lemma attr_field_append name attrs value :
  attr_field name (append attrs (mkAttr name value)) = value.
Proof.
  unfold attr_field, append. rewrite fold_left_app. cbn.
  by rewrite decide_True.
Qed.

(** C8: a token type of the table is written as the attribute [type]
    holding its canonical name; reading an element whose [type] is the name
    of no token type is an error, and reading one whose [type] is the name
    of a token type yields that token type.  What was written for a token
    type reads back as it. *)
Theorem TokenType_xml_canonical_name :
  (∀ t name e start,
     _TokenType_map !! t = Some name → Name start ≠ "" →
     TokenType_MarshalXML t e start =
     Done (e ++ [StartTok (mkStartElement (Name start)
                             (Attrs start ++ [mkAttr "type" name]));
                 EndTok (Name start)]))
  ∧ (∀ d start d',
       Skip d = Done d' →
       (∀ t, _TokenType_map !! t ≠ Some (attr_field "type" (Attrs start))) →
       TokenType_UnmarshalXML d start =
       Err ("unknown TokenType " +:+ fmt_q (attr_field "type" (Attrs start))))
  ∧ (∀ d start d' t,
       Skip d = Done d' →
       _TokenType_map !! t = Some (attr_field "type" (Attrs start)) →
       TokenType_UnmarshalXML d start = Done (t, d'))
  ∧ (∀ t name start written rest,
       _TokenType_map !! t = Some name →
       TokenType_MarshalXML t [] start = Done (StartTok written :: rest) →
       TokenType_UnmarshalXML rest written = Done (t, [])).
Proof.
  assert (Hwrite : ∀ t name e start,
     _TokenType_map !! t = Some name → Name start ≠ "" →
     TokenType_MarshalXML t e start =
     Done (e ++ [StartTok (mkStartElement (Name start)
                             (Attrs start ++ [mkAttr "type" name]));
                 EndTok (Name start)])).
  { intros t name e start Ht Hname.
    unfold TokenType_MarshalXML, EncodeToken. cbn.
    rewrite !decide_False by exact Hname. cbn.
    rewrite (TokenType_String_canonical t name Ht).
    unfold append. rewrite decide_False by exact Hname.
    by rewrite <- app_assoc. }
  assert (Hread : ∀ d start d' t,
       Skip d = Done d' →
       _TokenType_map !! t = Some (attr_field "type" (Attrs start)) →
       TokenType_UnmarshalXML d start = Done (t, d')).
  { intros d start d' t Hskip Ht.
    unfold TokenType_UnmarshalXML, DecodeElement_xmlTokenType.
    rewrite Hskip. cbn.
    by destruct (TokenType_lookup_known _ _ Ht) as [text ->]. }
  split; [exact Hwrite|]. split; [|split; [exact Hread|]].
  - intros d start d' Hskip Hnone.
    unfold TokenType_UnmarshalXML, DecodeElement_xmlTokenType.
    rewrite Hskip. cbn. by rewrite TokenType_lookup_unknown.
  - intros t name start written rest Ht Hwritten.
    destruct (decide (Name start = "")) as [Hempty|Hname].
    { unfold TokenType_MarshalXML, EncodeToken in Hwritten. cbn in Hwritten.
      by rewrite decide_True in Hwritten. }
    rewrite (Hwrite t name [] start Ht Hname) in Hwritten.
    cbn in Hwritten. injection Hwritten as <- <-.
    apply Hread; [reflexivity|]. cbn [Attrs].
    pose proof (attr_field_append "type" (Attrs start) name) as Hattr.
    unfold append in Hattr. by rewrite Hattr.
Qed.

Lemma EncodeToken_start e start :
  Name start ≠ "" → EncodeToken e (StartTok start) = Done (e ++ [StartTok start]).
Proof. intros H. unfold EncodeToken, append. by rewrite decide_False. Qed.

Lemma EncodeToken_end e name :
  name ≠ "" → EncodeToken e (EndTok name) = Done (e ++ [EndTok name]).
Proof. intros H. unfold EncodeToken, append. by rewrite decide_False. Qed.


(** ** Further properties of the emitters *)

Lemma gather_token_types state (types : list TokenType) :
  ∀ caps : list string,
    length types = length caps →
    gather (zip_with (group_part state)
              ((Some ∘ TokenTypeEmitter) <$> types) caps) =
    Ok (Some <$> ((fun token => [token]) <$> zip_with mkToken types caps)).
Proof.
  induction types as [|t types IH]; intros [|group caps] Hlen;
    try discriminate; [reflexivity|].
  injection Hlen as Hlen. cbn. cbn in IH. by rewrite (IH caps Hlen).
Qed.

Lemma concat_singletons {A} (s : list A) :
  concat ((fun x => [x]) <$> s) = s.
Proof. induction s as [|x s IH]; cbn; [reflexivity | by rewrite IH]. Qed.

(** [EOF], the token an iterator returns once it has no more tokens, is
    declared outside these files.  [Concaterator] on iterators none of
    which is [nil]: one iterator over the tokens they return before [EOF],
    in the order of the arguments. *)
Variable EOF : Token.
Hypothesis Concaterator_tokens_before_EOF :
  ∀ its : list (list Token),
    Forall (Forall (fun token => token ≠ EOF)) its →
    Concaterator (Some <$> its) = Some (concat its).

(** X1: by-groups given one token type per capture group yields one token
    per group, in order: the type of position [i] on the text of group
    [i], when none of these tokens is the [EOF] token. *)
Theorem byGroups_Emit_token_types (types : list TokenType) (whole : string)
  (caps : list string) (state : LexerState) :
  length types = length caps →
  Forall (fun token => token ≠ EOF) (zip_with mkToken types caps) →
  Emit (ByGroups ((Some ∘ TokenTypeEmitter) <$> types)) (whole :: caps) state =
  Ok (Some (zip_with mkToken types caps)).
Proof.
  intros Hlen Htokens. unfold ByGroups. rewrite Emit_byGroups, len_cons, len_eq.
  replace (len caps <? 0) with false by (unfold len; symmetry; apply Z.ltb_ge; lia).
  rewrite bool_decide_eq_true_2 by (by rewrite length_fmap).
  cbn [negb drop]. rewrite drop_0.
  pose proof (byGroups_loop state caps [] ((Some ∘ TokenTypeEmitter) <$> types) [])
    as Hloop.
  cbn [app length] in Hloop. rewrite Hloop by (by rewrite length_fmap).
  rewrite gather_token_types by exact Hlen.
  rewrite Concaterator_tokens_before_EOF, concat_singletons; [reflexivity|].
  apply Forall_fmap. eapply Forall_impl; [exact Htokens|].
  intros token Htoken. by constructor.
Qed.

(** X2: by-groups on an empty [groups] slice, and by-group-names on a state
    without named groups (not even the whole match), panic when sizing the
    iterator slice: the [Error]-token recovery is not reached. *)
Theorem group_emitters_panic_without_match :
  (∀ emitters state,
     Emit (ByGroups emitters) [] state = Panic makeslice_cap)
  ∧ (∀ emitters groups state,
       NamedGroups state = ∅ →
       Emit (ByGroupNames emitters) groups state = Panic makeslice_cap).
Proof.
  split.
  - intros emitters state. unfold ByGroups. by rewrite Emit_byGroups.
  - intros emitters groups state Hempty. unfold ByGroupNames.
    rewrite Emit_byGroupNames. cbv zeta. by rewrite Hempty, map_size_empty.
Qed.

(** X3: on a match with capture groups, by-group-names panics with an
    index error when [state.Rule] is not an index of
    [state.Rules[state.State]]; in particular when the state's name is not
    a key of [state.Rules]. *)
Theorem byGroupNames_Emit_rule_out_of_range
  (emitters : list (string * option Emitter)) (groups : list string)
  (state : LexerState) :
  (2 ≤ size (NamedGroups state))%nat →
  LexerState_Rule state < 0
  ∨ len (default [] (LexerState_Rules state !! LexerState_State state))
    ≤ LexerState_Rule state →
  Emit (ByGroupNames emitters) groups state = Panic index_out_of_range.
Proof.
  intros Hsize Hrange. unfold ByGroupNames. rewrite Emit_byGroupNames. cbv zeta.
  replace (_ - 1 <? 0) with false by (symmetry; apply Z.ltb_ge; lia).
  replace (_ - 1 =? 0) with false by (symmetry; apply Z.eqb_neq; lia).
  unfold index.
  destruct (LexerState_Rule state <? 0) eqn:Hneg; [reflexivity|].
  apply Z.ltb_ge in Hneg. destruct Hrange as [Hlt|Hge]; [lia|].
  rewrite lookup_ge_None_2; [reflexivity|]. unfold len in Hge. lia.
Qed.

(** X4: with matching counts, using-by-group panics with an index error
    when [sublexerNameGroup] is not an index of [groups], before any
    emitter is called. *)
Theorem UsingByGroup_name_group_out_of_range
  (sublexerGetFunc : string → option Lexer) (sublexerNameGroup codeGroup : Z)
  (emitters : list (option Emitter)) (groups : list string)
  (state : LexerState) :
  len emitters = len groups - 1 →
  sublexerNameGroup < 0 ∨ len groups ≤ sublexerNameGroup →
  Emit (UsingByGroup sublexerGetFunc sublexerNameGroup codeGroup emitters)
    groups state = Panic index_out_of_range.
Proof.
  intros Hlen Hrange. rewrite Emit_UsingByGroup.
  rewrite (proj2 (Z.eqb_eq _ _) Hlen). cbn [negb]. unfold index.
  destruct (sublexerNameGroup <? 0) eqn:Hneg; [reflexivity|].
  apply Z.ltb_ge in Hneg. destruct Hrange as [Hlt|Hge]; [lia|].
  rewrite lookup_ge_None_2; [reflexivity|]. unfold len in Hge. lia.
Qed.

Lemma UsingByGroup_Emit_slots sublexerGetFunc sublexerNameGroup codeGroup
  emitters whole caps state name :
  length emitters = length caps →
  index (whole :: caps) sublexerNameGroup = Ok name →
  Emit (UsingByGroup sublexerGetFunc sublexerNameGroup codeGroup emitters)
    (whole :: caps) state =
  Concaterator <$>
    collect (imap (UsingByGroup_slot (sublexerGetFunc name) codeGroup
                     emitters state) caps).
Proof.
  intros Hlen Hname. rewrite Emit_UsingByGroup, len_cons, len_eq.
  rewrite bool_decide_eq_true_2 by exact Hlen. cbn [negb].
  rewrite Hname. cbn [drop]. rewrite drop_0.
  unfold len. rewrite Nat2Z.id.
  pose proof (UsingByGroup_loop (sublexerGetFunc name) codeGroup emitters
                state whole caps [] [] eq_refl) as Hloop.
  cbn [app length] in Hloop. unfold Iterator in Hloop |- *. rewrite Hloop.
  by destruct (collect _).
Qed.

Lemma collect_first_panic {A} (parts : list (Result A)) (k : nat) p :
  parts !! k = Some (Panic p) →
  (∀ i part, (i < k)%nat → parts !! i = Some part → ∃ a, part = Ok a) →
  collect parts = Panic p.
Proof.
  revert k. induction parts as [|part parts IH]; intros k Hk Hbefore;
    [discriminate|].
  destruct k as [|k].
  - injection Hk as ->. reflexivity.
  - destruct (Hbefore 0%nat part ltac:(lia) eq_refl) as [a ->]. cbn.
    rewrite (IH k Hk); [reflexivity|].
    intros i part' Hi Hpart. apply (Hbefore (S i) part'); [lia | exact Hpart].
Qed.

(** X5: with matching counts, when the resolver returns a lexer and that
    lexer's [Tokenise] fails on the code group's text, using-by-group
    panics with that error, provided the fallback emitters of the groups
    before the code group did not panic first. *)
Theorem UsingByGroup_sublexer_failure_panics
  (sublexerGetFunc : string → option Lexer) (sublexerNameGroup : Z)
  (emitters : list (option Emitter)) (whole : string) (caps : list string)
  (state : LexerState) (name : string) (sublexer : Lexer)
  (k : nat) (code : string) (err : error) :
  length emitters = length caps →
  index (whole :: caps) sublexerNameGroup = Ok name →
  sublexerGetFunc name = Some sublexer →
  caps !! k = Some code →
  Tokenise sublexer None code = inr err →
  (∀ i group, (i < k)%nat → caps !! i = Some group →
     ∃ it, fallback_slot emitters state i group = Ok it) →
  Emit (UsingByGroup sublexerGetFunc sublexerNameGroup (Z.of_nat k + 1) emitters)
    (whole :: caps) state = Panic (PanicError err).
Proof.
  intros Hlen Hname Hget Hcode Herr Hbefore.
  rewrite (UsingByGroup_Emit_slots _ _ _ _ _ _ _ name Hlen Hname), Hget.
  rewrite (collect_first_panic _ k (PanicError err)); [reflexivity| |].
  - rewrite list_lookup_imap, Hcode. cbn.
    replace (Z.of_nat k =? Z.of_nat k + 1 - 1) with true
      by (symmetry; apply Z.eqb_eq; lia).
    unfold sublexer_slot. by rewrite Herr.
  - intros i part Hi Hpart. rewrite list_lookup_imap in Hpart.
    destruct (caps !! i) as [group|] eqn:Hgroup; [|discriminate].
    cbn in Hpart. injection Hpart as <-.
    replace (Z.of_nat i =? Z.of_nat k + 1 - 1) with false
      by (symmetry; apply Z.eqb_neq; lia).
    exact (Hbefore i group Hi Hgroup).
Qed.

Lemma collect_fallback_some state (caps : list string) :
  ∀ (pre es : list Emitter),
    length es = length caps →
    collect (imap (fun i => fallback_slot (Some <$> (pre ++ es)) state
                              (length pre + i)) caps) =
    gather (zip_with (group_part state) (Some <$> es) caps).
Proof.
  induction caps as [|group caps IH]; intros pre es Hlen.
  - by destruct es.
  - destruct es as [|e es]; [discriminate|]. injection Hlen as Hlen.
    cbn [imap collect fmap list_fmap zip_with gather group_part].
    unfold fallback_slot at 1. rewrite Nat.add_0_r, list_lookup_fmap.
    rewrite (list_lookup_middle pre es e (length pre) eq_refl). cbn.
    destruct (Emit e [group] state) as [it|p]; cbn; [|reflexivity].
    specialize (IH (pre ++ [e]) es Hlen).
    rewrite <- app_assoc, length_app in IH. cbn [app length] in IH.
    rewrite (imap_ext _ (fun i => fallback_slot (Some <$> (pre ++ e :: es)) state
                                    (length pre + 1 + i)) caps)
      by (intros; cbn; f_equal; lia).
    by rewrite IH.
Qed.

(** X6: with matching counts and no [nil] fallback emitter, when the
    resolver returns no lexer for the captured name, using-by-group emits
    what by-groups emits with the same emitters on the same groups. *)
Theorem UsingByGroup_without_sublexer_is_ByGroups
  (sublexerGetFunc : string → option Lexer) (sublexerNameGroup codeGroup : Z)
  (emitters : list Emitter) (whole : string) (caps : list string)
  (state : LexerState) (name : string) :
  length emitters = length caps →
  index (whole :: caps) sublexerNameGroup = Ok name →
  sublexerGetFunc name = None →
  Emit (UsingByGroup sublexerGetFunc sublexerNameGroup codeGroup
          (Some <$> emitters)) (whole :: caps) state =
  Emit (ByGroups (Some <$> emitters)) (whole :: caps) state.
Proof.
  intros Hlen Hname Hget.
  assert (Hlen' : length (Some <$> emitters) = length caps)
    by (by rewrite length_fmap).
  rewrite (UsingByGroup_Emit_slots _ _ _ _ _ _ _ name Hlen' Hname), Hget.
  unfold ByGroups. rewrite Emit_byGroups, len_cons, len_eq.
  replace (len caps <? 0) with false by (unfold len; symmetry; apply Z.ltb_ge; lia).
  rewrite bool_decide_eq_true_2 by exact Hlen'. cbn [negb drop]. rewrite drop_0.
  pose proof (byGroups_loop state caps [] (Some <$> emitters) [] Hlen') as Hloop.
  cbn [app length] in Hloop. rewrite Hloop.
  pose proof (collect_fallback_some state caps [] emitters Hlen) as Hslots.
  cbn [app length] in Hslots.
  unfold UsingByGroup_slot.
  rewrite (imap_ext _ (fun i => fallback_slot (Some <$> emitters) state (0 + i)) caps)
    by reflexivity.
  rewrite Hslots. by destruct (gather _).
Qed.

(** ** Further properties of the serialisation *)

Lemma EncodeElement_emitter_plain e emitter kind :
  plain_emitter (Some emitter) → EmitterKind emitter = Some kind →
  EncodeElement_emitter e emitter (mkStartElement kind []) =
  Done (e ++ emitter_element (Some emitter)).
Proof.
  intros Hplain Hkind. destruct emitter; try (by destruct Hplain).
  - injection Hkind as <-. cbn -[EncodeToken].
    rewrite EncodeToken_start by discriminate. cbn -[EncodeToken].
    rewrite EncodeToken_end by discriminate. by rewrite <- app_assoc.
  - injection Hkind as <-. unfold EncodeElement_emitter, TokenType_MarshalXML.
    cbn -[EncodeToken].
    rewrite EncodeToken_start by discriminate. cbn -[EncodeToken].
    rewrite EncodeToken_end by discriminate. by rewrite <- app_assoc.
Qed.

Lemma Rule_MarshalXML_plain r e :
  plain_rule r → Rule_MarshalXML r e = Done (e ++ rule_element r).
Proof.
  destruct r as [pattern emitter mutator]. intros [Hemitter Hmutator].
  cbn in Hemitter, Hmutator. subst mutator.
  unfold Rule_MarshalXML, rule_element. cbn [Pattern Rule_Type Rule_Mutator].
  fold (rule_start (mkRule pattern emitter None)).
  rewrite EncodeToken_start by discriminate. cbn [mbind Errored_bind].
  destruct emitter as [emitter|].
  - destruct (EmitterKind emitter) as [kind|] eqn:Hkind;
      [|by destruct emitter].
    rewrite (EncodeElement_emitter_plain _ emitter kind Hemitter Hkind).
    cbn [mbind Errored_bind Name rule_start].
    rewrite EncodeToken_end by discriminate.
    by rewrite <- !app_assoc.
  - cbn [mbind Errored_bind Name rule_start emitter_element].
    rewrite EncodeToken_end by discriminate.
    by rewrite <- !app_assoc.
Qed.

Lemma each_Rule_MarshalXML_plain rules :
  ∀ e, Forall plain_rule rules →
       each_with (fun e r => Rule_MarshalXML r e) rules e =
       Done (e ++ concat (rule_element <$> rules)).
Proof.
  induction rules as [|r rules IH]; intros e Hplain.
  - cbn. by rewrite app_nil_r.
  - apply Forall_cons in Hplain as [Hr Hrules].
    cbn [each_with fmap list_fmap concat].
    rewrite (Rule_MarshalXML_plain r e Hr), (IH _ Hrules).
    by rewrite <- app_assoc.
Qed.

Lemma each_state_plain (states : list (string * list Rule)) :
  ∀ e, Forall (fun state => Forall plain_rule state.2) states →
       each_with (fun e state =>
           e ← EncodeToken e (StartTok (mkStartElement "state"
                  [mkAttr "name" (xmlRuleState_Name state)]));
           e ← each_with (fun e r => Rule_MarshalXML r e)
                  (xmlRuleState_Rules state) e;
           EncodeToken e (EndTok "state"))
         ((fun state => mkXmlRuleState state.1 state.2) <$> states) e =
       Done (e ++ concat (state_element <$> states)).
Proof.
  induction states as [|[name rules] states IH]; intros e Hplain.
  - cbn. by rewrite app_nil_r.
  - apply Forall_cons in Hplain as [Hrules Hstates]. cbn in Hrules.
    cbn [fmap list_fmap each_with xmlRuleState_Name xmlRuleState_Rules fst snd].
    rewrite EncodeToken_start by discriminate. cbn [mbind Errored_bind].
    rewrite (each_Rule_MarshalXML_plain rules _ Hrules). cbn [mbind Errored_bind].
    rewrite EncodeToken_end by discriminate.
    cbn [fmap list_fmap] in IH. rewrite (IH _ Hstates).
    cbn [fmap list_fmap concat]. unfold state_element. cbn [fst snd].
    f_equal. rewrite <- ?app_assoc. cbn [app]. by rewrite <- ?app_assoc.
Qed.

Lemma xmlRules_of_range (range_r : list (string * list Rule)) :
  ∀ xr,
    foldl (fun xr '(state, rules) =>
             mkXmlRules (append (States xr) (mkXmlRuleState state rules)))
      xr range_r =
    mkXmlRules (States xr ++ ((fun state => mkXmlRuleState state.1 state.2)
                                <$> range_r)).
Proof.
  induction range_r as [|[name rules] range_r IH]; intros [states].
  - cbn. by rewrite app_nil_r.
  - cbn [foldl]. rewrite IH. cbn [States fmap list_fmap fst snd].
    unfold append. by rewrite <- app_assoc.
Qed.

Lemma Rules_MarshalXML_plain range_r e :
  Forall (fun state => Forall plain_rule state.2) range_r →
  Rules_MarshalXML range_r e = Done (e ++ rules_element range_r).
Proof.
  intros Hplain. unfold Rules_MarshalXML, EncodeElement_xmlRules.
  rewrite xmlRules_of_range. cbn [States app Name].
  rewrite EncodeToken_start by discriminate. cbn [mbind Errored_bind].
  rewrite (each_state_plain range_r _ Hplain). cbn [mbind Errored_bind].
  rewrite EncodeToken_end by discriminate.
  unfold rules_element. f_equal. rewrite <- ?app_assoc. cbn [app].
  by rewrite <- ?app_assoc.
Qed.

Lemma balanced_nil : balanced [].
Proof. intros depth acc d. by exists acc. Qed.

Lemma balanced_app b1 b2 : balanced b1 → balanced b2 → balanced (b1 ++ b2).
Proof.
  intros H1 H2 depth acc d. rewrite <- app_assoc.
  destruct (H1 depth acc (b2 ++ d)) as [acc1 ->]. apply H2.
Qed.

Lemma balanced_element start b name :
  balanced b → balanced (StartTok start :: b ++ [EndTok name]).
Proof.
  intros Hb depth acc d. cbn [app children]. rewrite <- app_assoc.
  destruct (Hb (S depth) (match depth with
                          | O => append acc (Name start)
                          | S _ => acc
                          end) ([EndTok name] ++ d)) as [acc1 ->].
  cbn. by exists acc1.
Qed.

Lemma balanced_concat (bs : list (list XmlToken)) :
  Forall balanced bs → balanced (concat bs).
Proof.
  induction 1 as [|b bs Hb _ IH]; [apply balanced_nil|].
  by apply balanced_app.
Qed.

Lemma Skip_balanced b name rest :
  balanced b → Skip (b ++ EndTok name :: rest) = Done rest.
Proof.
  intros Hb. unfold Skip.
  by destruct (Hb 0%nat [] (EndTok name :: rest)) as [acc ->].
Qed.

Lemma balanced_emitter_element emitter : balanced (emitter_element emitter).
Proof.
  destruct emitter as [[]|]; try apply balanced_nil;
    apply (balanced_element _ [] _ balanced_nil).
Qed.

Lemma balanced_rule_element r : balanced (rule_element r).
Proof. apply balanced_element, balanced_emitter_element. Qed.

Lemma balanced_rule_elements rules : balanced (concat (rule_element <$> rules)).
Proof.
  apply balanced_concat, Forall_fmap, Forall_forall.
  intros r _. apply balanced_rule_element.
Qed.

Lemma balanced_state_elements (states : list (string * list Rule)) :
  balanced (concat (state_element <$> states)).
Proof.
  apply balanced_concat, Forall_fmap, Forall_forall.
  intros state _. apply balanced_element, balanced_rule_elements.
Qed.

Lemma emitterTemplates_lookup emitter kind :
  EmitterKind emitter = Some kind →
  ∃ template,
    emitterTemplates !! kind = Some template
    ∧ EmitterKind template = Some kind
    ∧ template =
      match emitter with
      | EmitterFunc f => EmitterFunc f
      | byGroupsEmitter _ => byGroupsEmitter []
      | byGroupNamesEmitter _ => byGroupNamesEmitter []
      | usingEmitter _ _ => usingEmitter "" None
      | usingSelfEmitter _ => usingSelfEmitter ""
      | TokenTypeEmitter _ => TokenTypeEmitter 0
      end.
Proof.
  destruct emitter; intros Hkind; try discriminate;
    injection Hkind as <-; eexists; (split; [vm_compute; reflexivity|]);
    split; reflexivity.
Qed.

Lemma emitterTemplates_keys kind template :
  emitterTemplates !! kind = Some template → EmitterKind template = Some kind.
Proof.
  unfold emitterTemplates. cbn [foldl EmitterKind]. intros H.
  repeat (apply lookup_insert_Some in H as [[<- <-]|[_ H]]; [reflexivity|]).
  by rewrite lookup_empty in H.
Qed.

Lemma Rule_loop_plain_emitter fuel r emitter d :
  plain_emitter (Some emitter) → Rule_Type r = None →
  Rule_UnmarshalXML_loop (S fuel) r (emitter_element (Some emitter) ++ d) =
  Rule_UnmarshalXML_loop fuel (mkRule (Pattern r) (Some emitter) (Rule_Mutator r)) d.
Proof.
  intros Hplain Hnone.
  destruct emitter as [| | | |state|t]; try (by destruct Hplain).
  - destruct (emitterTemplates_lookup (usingSelfEmitter state) _ eq_refl)
      as (template & Hlookup & _ & ->).
    cbn [emitter_element app Rule_UnmarshalXML_loop Token_ Name].
    rewrite Hlookup, Hnone. reflexivity.
  - destruct (emitterTemplates_lookup (TokenTypeEmitter t) _ eq_refl)
      as (template & Hlookup & _ & ->).
    destruct Hplain as [name Hname].
    cbn [emitter_element app Rule_UnmarshalXML_loop Token_ Name].
    rewrite Hlookup, Hnone.
    replace (DecodeElement_emitter (TokenTypeEmitter 0) (EndTok "token" :: d)
               (mkStartElement "token" [mkAttr "type" (TokenType_String t)]))
      with (Done (TokenTypeEmitter t, d)); [reflexivity|].
    unfold DecodeElement_emitter, unmarshalInterface, TokenType_UnmarshalXML,
      DecodeElement_xmlTokenType.
    change (Skip (EndTok "token" :: d)) with (Done (A:=Decoder) d).
    cbn [mbind Errored_bind xmlTokenType_Type Attrs].
    change (attr_field "type" [mkAttr "type" (TokenType_String t)])
      with (TokenType_String t).
    rewrite (TokenType_String_canonical t name Hname).
    destruct (TokenType_lookup_known t name Hname) as [text ->].
    by rewrite decide_True.
Qed.

Lemma Rule_decode_plain r rest :
  plain_rule r →
  unmarshalInterface "*chroma.Rule" (Rule_UnmarshalXML (mkRule "" None None))
    (emitter_element (Rule_Type r) ++ EndTok "rule" :: rest) (rule_start r)
  = Done (r, rest).
Proof.
  destruct r as [pattern emitter mutator]. intros [Hemitter Hmutator].
  cbn in Hemitter, Hmutator. subst mutator. cbn [Rule_Type].
  unfold unmarshalInterface.
  rewrite (Skip_balanced _ "rule" rest (balanced_emitter_element emitter)).
  replace (Rule_UnmarshalXML (mkRule "" None None)
             (emitter_element emitter ++ EndTok "rule" :: rest)
             (rule_start (mkRule pattern emitter None)))
    with (Done (mkRule pattern emitter None, rest)); [by rewrite decide_True|].
  unfold Rule_UnmarshalXML, rule_start. cbn [Pattern Attrs Rule_Type Rule_Mutator].
  assert (Hloop : ∀ r0 : Rule,
            Rule_Type r0 = None → Rule_Mutator r0 = None →
            Rule_UnmarshalXML_loop
              (length (emitter_element emitter ++ EndTok "rule" :: rest)) r0
              (emitter_element emitter ++ EndTok "rule" :: rest)
            = Done (mkRule (Pattern r0) emitter None, rest)).
  { intros [pattern0 type0 mutator0] Htype Hmut. cbn in Htype, Hmut. subst.
    destruct emitter as [emitter|].
    - assert (Hlen : ∃ fuel, length (emitter_element (Some emitter)
                                      ++ EndTok "rule" :: rest) = S (S fuel)).
      { destruct emitter; try (by destruct Hemitter); cbn; eauto. }
      destruct Hlen as [fuel ->].
      rewrite (Rule_loop_plain_emitter (S fuel) (mkRule pattern0 None None)
                 emitter _ Hemitter eq_refl).
      reflexivity.
    - reflexivity. }
  destruct (decide (pattern = "")) as [->|Hpattern].
  - cbn [List.find]. by rewrite Hloop.
  - cbn [List.find Attr_Name]. rewrite bool_decide_eq_true_2 by reflexivity.
    cbn [Attr_Value Rule_Type Rule_Mutator]. by rewrite Hloop.
Qed.

Lemma length_rule_elements rules :
  (length rules ≤ length (concat (rule_element <$> rules)))%nat.
Proof.
  induction rules as [|r rules IH]; cbn; [lia|]. rewrite length_app. lia.
Qed.

Lemma length_state_elements (states : list (string * list Rule)) :
  (length states ≤ length (concat (state_element <$> states)))%nat.
Proof.
  induction states as [|state states IH]; cbn; [lia|]. rewrite length_app. lia.
Qed.

Lemma xmlRuleState_loop_plain rules :
  ∀ fuel state name rest,
    Forall plain_rule rules → (length rules < fuel)%nat →
    DecodeElement_xmlRuleState_loop fuel state
      (concat (rule_element <$> rules) ++ EndTok name :: rest) =
    Done (mkXmlRuleState (xmlRuleState_Name state)
            (xmlRuleState_Rules state ++ rules), rest).
Proof.
  induction rules as [|r rules IH]; intros fuel [state_name state_rules] name
    rest Hplain Hfuel; (destruct fuel as [|fuel]; [cbn in Hfuel; lia|]).
  - cbn. by rewrite app_nil_r.
  - apply Forall_cons in Hplain as [Hr Hrules].
    cbn [fmap list_fmap concat]. unfold rule_element at 1.
    cbn [app]. rewrite <- !app_assoc. cbn [app].
    cbn [DecodeElement_xmlRuleState_loop Token_].
    rewrite decide_True by reflexivity.
    rewrite (Rule_decode_plain r _ Hr).
    rewrite IH by (auto; cbn in Hfuel; lia).
    cbn [xmlRuleState_Name xmlRuleState_Rules]. unfold append.
    by rewrite <- app_assoc.
Qed.

Lemma xmlRules_loop_plain (states : list (string * list Rule)) :
  ∀ fuel xr name rest,
    Forall (fun state => Forall plain_rule state.2) states →
    (length states < fuel)%nat →
    DecodeElement_xmlRules_loop fuel xr
      (concat (state_element <$> states) ++ EndTok name :: rest) =
    Done (mkXmlRules (States xr ++ ((fun state => mkXmlRuleState state.1 state.2)
                                      <$> states)), rest).
Proof.
  induction states as [|[state_name rules] states IH]; intros fuel [xr_states]
    name rest Hplain Hfuel; (destruct fuel as [|fuel]; [cbn in Hfuel; lia|]).
  - cbn. by rewrite app_nil_r.
  - apply Forall_cons in Hplain as [Hrules Hstates]. cbn in Hrules.
    cbn [fmap list_fmap concat]. unfold state_element at 1.
    cbn [app fst snd]. rewrite <- !app_assoc. cbn [app].
    cbn [DecodeElement_xmlRules_loop Token_].
    rewrite decide_True by reflexivity.
    unfold DecodeElement_xmlRuleState.
    change (attr_field "name" (Attrs (mkStartElement "state"
                                        [mkAttr "name" state_name])))
      with state_name.
    rewrite xmlRuleState_loop_plain;
      [|exact Hrules
       |rewrite length_app; pose proof (length_rule_elements rules); cbn; lia].
    rewrite IH by (auto; cbn in Hfuel; lia).
    cbn [States xmlRuleState_Name xmlRuleState_Rules app fst snd].
    unfold append. by rewrite <- app_assoc.
Qed.

Lemma Unmarshal_Rules_plain (range_r : list (string * list Rule)) (r : Rules) :
  Forall (fun state => Forall plain_rule state.2) range_r →
  Unmarshal_Rules (rules_element range_r) r =
  Done (foldl (fun (r : Rules) state => <[state.1:=state.2]> r) r range_r).
Proof.
  intros Hplain. unfold rules_element. cbn [Unmarshal_Rules].
  unfold unmarshalInterface, Rules_UnmarshalXML, DecodeElement_xmlRules.
  rewrite (Skip_balanced _ "rules" [] (balanced_state_elements range_r)).
  rewrite xmlRules_loop_plain;
    [|exact Hplain
     |rewrite length_app; pose proof (length_state_elements range_r); cbn; lia].
  cbn [mbind Errored_bind States app]. rewrite decide_True by reflexivity.
  f_equal. generalize r. clear.
  induction range_r as [|state range_r IH]; intros r; [reflexivity|].
  cbn. apply IH.
Qed.

Lemma foldl_insert_range (table : Rules) (range_r : list (string * list Rule)) :
  range_r ≡ₚ map_to_list table →
  foldl (fun (r : Rules) state => <[state.1:=state.2]> r) ∅ range_r = table.
Proof.
  intros Hperm.
  assert (Hfold : ∀ l : list (string * list Rule),
            foldl (fun (r : Rules) state => <[state.1:=state.2]> r) ∅ l
            = list_to_map (reverse l)).
  { intros l. induction l as [|[name rules] l IH] using rev_ind; [reflexivity|].
    rewrite foldl_app, reverse_app. cbn. by rewrite IH. }
  rewrite Hfold. rewrite <- (list_to_map_to_list table).
  apply list_to_map_proper.
  - rewrite reverse_Permutation, Hperm. apply NoDup_fst_map_to_list.
  - by rewrite reverse_Permutation.
Qed.

(** X7: every kind an emitter is written under finds, on reading, a
    template of that same kind, and [emitterTemplates] has no other key:
    its five keys are the kinds of its five templates. *)
Theorem emitterTemplates_kinds (kind : string) :
  (∀ emitter, EmitterKind emitter = Some kind →
     ∃ template, emitterTemplates !! kind = Some template
                 ∧ EmitterKind template = Some kind)
  ∧ (∀ template, emitterTemplates !! kind = Some template →
       EmitterKind template = Some kind
       ∧ kind ∈ ["bygroups"; "bygroupnames"; "using"; "usingself"; "token"]).
Proof.
  split.
  - intros emitter Hkind.
    destruct (emitterTemplates_lookup emitter kind Hkind) as (t & Ht & Hk & _).
    by exists t.
  - intros template Hlookup.
    pose proof (emitterTemplates_keys kind template Hlookup) as Hkind.
    split; [exact Hkind|].
    destruct template; try discriminate; injection Hkind as <-;
      repeat first [apply list_elem_of_here | apply list_elem_of_further].
Qed.

(** X8: written by [Rules.MarshalXML], a table whose rules have no mutator
    and a token type of the table, a using-self emitter or no emitter is
    the document of the header comment: [rules], one [state] per entry with
    its name, one [rule] per rule with its pattern (left out when empty) and
    its emitter element. *)
Theorem Rules_MarshalXML_format (range_r : list (string * list Rule))
  (e : Encoder) :
  Forall (fun state => Forall plain_rule state.2) range_r →
  Rules_MarshalXML range_r e = Done (e ++ rules_element range_r).
Proof. apply Rules_MarshalXML_plain. Qed.

Lemma on_the_wire_app (data more : list XmlToken) :
  on_the_wire (data ++ more) = on_the_wire data ++ on_the_wire more.
Proof. apply fmap_app. Qed.

Lemma on_the_wire_emitter_element emitter :
  carried_emitter emitter →
  on_the_wire (emitter_element emitter) = emitter_element emitter.
Proof.
  destruct emitter as [[]|]; cbn; intros Hcarried; try reflexivity;
    by rewrite Hcarried.
Qed.

Lemma on_the_wire_rule_element r :
  carried_rule r → on_the_wire (rule_element r) = rule_element r.
Proof.
  intros [Hpattern Hemitter]. unfold rule_element, on_the_wire.
  rewrite fmap_cons, fmap_app. fold (on_the_wire (emitter_element (Rule_Type r))).
  rewrite (on_the_wire_emitter_element _ Hemitter). f_equal.
  unfold rule_start. destruct (decide (Pattern r = "")); cbn; [reflexivity|].
  by rewrite Hpattern.
Qed.

Lemma on_the_wire_rule_elements rules :
  Forall carried_rule rules →
  on_the_wire (concat (rule_element <$> rules)) = concat (rule_element <$> rules).
Proof.
  induction 1 as [|r rules Hr _ IH]; [reflexivity|].
  cbn [fmap list_fmap concat]. rewrite on_the_wire_app.
  by rewrite (on_the_wire_rule_element r Hr), IH.
Qed.

Lemma on_the_wire_rules_element (range_r : list (string * list Rule)) :
  Forall (fun state => xml_text state.1 = state.1
                       ∧ Forall carried_rule state.2) range_r →
  on_the_wire (rules_element range_r) = rules_element range_r.
Proof.
  intros Hcarried. unfold rules_element, on_the_wire.
  rewrite fmap_cons, fmap_app. cbn [fmap list_fmap wire_token Name Attrs].
  do 2 f_equal.
  induction Hcarried as [|[name rules] range_r [Hname Hrules] _ IH];
    [reflexivity|].
  cbn [fmap list_fmap concat]. rewrite fmap_app, IH. f_equal.
  cbn [fst snd] in Hname, Hrules. unfold state_element. cbn [fst snd].
  rewrite fmap_cons, fmap_app.
  fold (on_the_wire (concat (rule_element <$> rules))).
  rewrite (on_the_wire_rule_elements rules Hrules).
  cbn [fmap list_fmap wire_token Name Attrs Attr_Name Attr_Value].
  by rewrite Hname.
Qed.

(** X9: a rule without mutator whose emitter is a token type of the
    table, a using-self emitter or absent, and whose strings the wire
    carries, is read back as it was by [xml.Unmarshal], into an empty
    [Rule], from the text of what [xml.Marshal] wrote. *)
Theorem Rule_round_trip_plain (r : Rule) :
  plain_rule r →
  carried_rule r →
  ∃ data, Marshal_Rule r = Done data
          ∧ Unmarshal_Rule (on_the_wire data) (mkRule "" None None) = Done r.
Proof.
  intros Hplain Hcarried. exists (rule_element r). split.
  - unfold Marshal_Rule. by rewrite Rule_MarshalXML_plain.
  - rewrite (on_the_wire_rule_element r Hcarried).
    unfold rule_element. cbn [Unmarshal_Rule].
    pose proof (Rule_decode_plain r [] Hplain) as Hdecode.
    cbn [app] in Hdecode |- *. by rewrite Hdecode.
Qed.

(** X10: a table of at least one state, whose states each have at least
    one rule, whose rules are all as in X9 and whose state names the wire
    carries, is read back as it was by [xml.Unmarshal], into an empty table
    that is not [nil] ([Rules{}]), from the text of what [xml.Marshal]
    wrote, in whatever order [range] visited its states. *)
Theorem Rules_round_trip_plain (table : Rules)
  (range_r : list (string * list Rule)) :
  table ≠ ∅ →
  range_r ≡ₚ map_to_list table →
  map_Forall (fun name rules =>
                xml_text name = name ∧ rules ≠ []
                ∧ Forall (fun r => plain_rule r ∧ carried_rule r) rules) table →
  ∃ data, Marshal_Rules range_r = Done data
          ∧ Unmarshal_Rules (on_the_wire data) ∅ = Done table.
Proof.
  intros _ Hperm Htable.
  assert (Hrange : Forall (fun state : string * list Rule =>
                             xml_text state.1 = state.1 ∧ state.2 ≠ []
                             ∧ Forall (fun r => plain_rule r ∧ carried_rule r)
                                 state.2) range_r).
  { rewrite Hperm. apply map_Forall_to_list in Htable.
    eapply Forall_impl; [exact Htable|]. by intros [name rules]. }
  assert (Hplain : Forall (fun state => Forall plain_rule state.2) range_r).
  { eapply Forall_impl; [exact Hrange|]. intros state (_ & _ & Hrules).
    eapply Forall_impl; [exact Hrules|]. by intros r [Hr _]. }
  assert (Hcarried : Forall (fun state => xml_text state.1 = state.1
                                          ∧ Forall carried_rule state.2) range_r).
  { eapply Forall_impl; [exact Hrange|]. intros state (Hname & _ & Hrules).
    split; [exact Hname|].
    eapply Forall_impl; [exact Hrules|]. by intros r [_ Hr]. }
  exists (rules_element range_r). split.
  - unfold Marshal_Rules. by rewrite Rules_MarshalXML_plain.
  - rewrite (on_the_wire_rules_element range_r Hcarried).
    rewrite (Unmarshal_Rules_plain range_r ∅ Hplain).
    by rewrite (foldl_insert_range table range_r Hperm).
Qed.

Lemma foldl_insert_lookup_other (states : list xmlRuleState) :
  ∀ (r : Rules) name,
    name ∉ xmlRuleState_Name <$> states →
    foldl (fun (r : Rules) state =>
             <[xmlRuleState_Name state:=xmlRuleState_Rules state]> r) r states
    !! name = r !! name.
Proof.
  induction states as [|state states IH]; intros r name Hname; [reflexivity|].
  cbn [fmap list_fmap] in Hname. apply not_elem_of_cons in Hname as [Hne Hname].
  cbn [foldl]. rewrite IH by exact Hname. by rewrite lookup_insert_ne.
Qed.

(** X11: [Rules.UnmarshalXML] assigns each decoded state to the receiver
    under its name.  On a receiver that is a map, entries under other names
    are kept, and of several states with one name the last one stays.  On
    the [nil] map the first assignment panics; when no state was decoded
    nothing is assigned and the receiver stays [nil]. *)
Theorem Rules_UnmarshalXML_assigns (d : Decoder) (start : StartElement)
  (xr : xmlRules) (d' : Decoder) :
  DecodeElement_xmlRules d start = Done (xr, d') →
  (States xr ≠ [] →
   Rules_UnmarshalXML_receiver None d start = Panic nil_map_assignment)
  ∧ (States xr = [] →
     Rules_UnmarshalXML_receiver None d start = Ok (Done (None, d')))
  ∧ ∀ r : Rules,
      ∃ r', Rules_UnmarshalXML_receiver (Some r) d start = Ok (Done (Some r', d'))
            ∧ Rules_UnmarshalXML r d start = Done (r', d')
            ∧ (∀ name, name ∉ xmlRuleState_Name <$> States xr →
                 r' !! name = r !! name)
            ∧ (∀ before state after,
                 States xr = before ++ state :: after →
                 xmlRuleState_Name state ∉ xmlRuleState_Name <$> after →
                 r' !! xmlRuleState_Name state = Some (xmlRuleState_Rules state)).
Proof.
  intros Hdecode. unfold Rules_UnmarshalXML_receiver, Rules_UnmarshalXML.
  rewrite Hdecode. cbn [mbind Errored_bind]. split; [|split].
  - by destruct (States xr).
  - by intros ->.
  - intros r. eexists. split; [reflexivity|]. split; [reflexivity|]. split.
    + intros name Hname. by apply foldl_insert_lookup_other.
    + intros before state after -> Hlast.
      rewrite foldl_app. cbn [foldl].
      rewrite foldl_insert_lookup_other by exact Hlast.
      by rewrite lookup_insert_eq.
Qed.

(** X12: a rule element holds at most one emitter element: after a first
    emitter element has been read, a second start tag of any emitter kind
    ends [Rule.UnmarshalXML] with the error [duplicate emitter]. *)
Theorem Rule_UnmarshalXML_duplicate_emitter (fuel : nat) (r : Rule)
  (first second : Emitter) (token : StartElement) (d : Decoder) :
  plain_emitter (Some first) →
  Rule_Type r = None →
  EmitterKind second = Some (Name token) →
  Rule_UnmarshalXML_loop (S (S fuel)) r
    (emitter_element (Some first) ++ StartTok token :: d) =
  Err ("duplicate emitter " +:+ fmt_q (Name token)).
Proof.
  intros Hfirst Hnone Hkind.
  rewrite (Rule_loop_plain_emitter (S fuel) r first _ Hfirst Hnone).
  destruct (emitterTemplates_lookup second _ Hkind) as (template & Hlookup & _).
  cbn [Rule_UnmarshalXML_loop Token_]. rewrite Hlookup. reflexivity.
Qed.

(** X13: a using emitter read from XML has the [lexer] attribute as its
    name and no lexer, and its [Emit] panics on every match; so a rule made
    with [Using(lexer)] is read back, from the text of what [xml.Marshal]
    wrote, with the pattern and the lexer's name as the wire carries them
    and an emitter without lexer. *)
Theorem Using_read_back_without_lexer :
  (∀ template d start e d',
     EmitterKind template = Some "using" →
     DecodeElement_emitter template d start = Done (e, d') →
     e = usingEmitter (attr_field "lexer" (Attrs start)) None
     ∧ ∀ whole rest state, Emit e (whole :: rest) state = Panic nil_dereference)
  ∧ (∀ pattern lexer,
       ∃ data,
         Marshal_Rule (mkRule pattern (Some (Using lexer)) None) = Done data
         ∧ Unmarshal_Rule (on_the_wire data) (mkRule "" None None) =
           Done (mkRule (if decide (pattern = "") then "" else xml_text pattern)
                   (Some (usingEmitter (xml_text (Config_Name lexer)) None))
                   None)).
Proof.
  split.
  - intros template d start e d' Hkind Hdecode.
    destruct template; try discriminate. cbn in Hdecode.
    destruct (Skip d); [|discriminate]. cbn in Hdecode.
    injection Hdecode as <- <-. by split.
  - intros pattern lexer.
    exists [StartTok (rule_start (mkRule pattern None None));
            StartTok (mkStartElement "using"
                        [mkAttr "lexer" (Config_Name lexer)]);
            EndTok "using"; EndTok "rule"].
    split.
    + unfold Marshal_Rule, Rule_MarshalXML, Using.
      cbn -[EncodeToken].
      repeat (first [rewrite EncodeToken_start by discriminate
                    |rewrite EncodeToken_end by discriminate];
              cbn -[EncodeToken]).
      reflexivity.
    + destruct (emitterTemplates_lookup (usingEmitter "" None) _ eq_refl)
        as (template & Hlookup & _ & ->).
      unfold on_the_wire, rule_start.
      cbn [fmap list_fmap wire_token Name Attrs Attr_Name Attr_Value Pattern
           Unmarshal_Rule].
      unfold unmarshalInterface.
      change (Skip [StartTok (mkStartElement "using"
                                [mkAttr "lexer" (xml_text (Config_Name lexer))]);
                    EndTok "using"; EndTok "rule"])
        with (Done (A:=Decoder) []).
      replace (Rule_UnmarshalXML (mkRule "" None None) _ _)
        with (Done (mkRule (if decide (pattern = "") then "" else xml_text pattern)
                      (Some (usingEmitter (xml_text (Config_Name lexer)) None))
                      None,
                    ([] : Decoder))); [by rewrite decide_True|].
      unfold Rule_UnmarshalXML.
      cbn [length Rule_UnmarshalXML_loop Token_ Name].
      destruct (decide (pattern = "")) as [->|Hpattern].
      * cbn [fmap list_fmap List.find]. rewrite Hlookup. reflexivity.
      * rewrite Hlookup. reflexivity.
Qed.

Lemma gather_nil_emitters state (caps : list string) :
  gather (zip_with (group_part state) (replicate (length caps) None) caps)
  = Ok ([] : list Iterator).
Proof. induction caps as [|group caps IH]; cbn; [reflexivity | by rewrite IH]. Qed.

(** X14: a by-groups emitter read from XML holds only [nil] emitters, one
    per [emit] child ([Emitter] is an interface, which the library leaves
    [nil]): on a match with as many groups it emits no token of any
    group. *)
Theorem byGroups_read_back_nil (template : Emitter) (d : Decoder)
  (start : StartElement) (e : Emitter) (d' : Decoder) :
  EmitterKind template = Some "bygroups" →
  DecodeElement_emitter template d start = Done (e, d') →
  ∃ n, e = byGroupsEmitter (replicate n None)
       ∧ ∀ whole caps state,
           length caps = n →
           Emit e (whole :: caps) state = Ok (Concaterator []).
Proof.
  intros Hkind Hdecode. destruct template; try discriminate. cbn in Hdecode.
  destruct (children 0 [] d) as [[names rest]|]; [|discriminate].
  cbn in Hdecode. injection Hdecode as <- <-.
  exists (length (filter (fun name => name = "emit") names)). split.
  - f_equal. induction (filter _ names) as [|name l IH]; cbn; [reflexivity|].
    by rewrite IH.
  - intros whole caps state Hlen.
    replace (fmap (M:=list) (fun _ : string => @None Emitter) (filter (fun name => name = "emit") names))
      with (replicate (length caps) (@None Emitter)).
    2:{ rewrite Hlen. clear. induction (filter _ names) as [|name l IH]; cbn;
          [reflexivity | by rewrite IH]. }
    rewrite Emit_byGroups, len_cons, len_eq.
    replace (len caps <? 0) with false
      by (unfold len; symmetry; apply Z.ltb_ge; lia).
    rewrite bool_decide_eq_true_2 by (by rewrite length_replicate).
    cbn [negb drop]. rewrite drop_0.
    pose proof (byGroups_loop state caps [] (replicate (length caps) None) [])
      as Hloop.
    cbn [app length] in Hloop. rewrite Hloop by (by rewrite length_replicate).
    by rewrite gather_nil_emitters.
Qed.

(** X15: a rule element whose [token] element names no token type is
    refused by [xml.Unmarshal] with the error of [TokenType.UnmarshalXML]:
    the rule is not read with a default type. *)
Theorem Unmarshal_Rule_unknown_TokenType (pattern name : string) (r : Rule) :
  (∀ t, _TokenType_map !! t ≠ Some name) →
  Rule_Type r = None →
  Unmarshal_Rule
    [StartTok (rule_start (mkRule pattern None None));
     StartTok (mkStartElement "token" [mkAttr "type" name]);
     EndTok "token"; EndTok "rule"] r
  = Err ("unknown TokenType " +:+ fmt_q name).
Proof.
  intros Hunknown Hnone. cbn [Unmarshal_Rule]. unfold unmarshalInterface.
  replace (Rule_UnmarshalXML r _ _) with
    (Err (A:=Rule * Decoder) ("unknown TokenType " +:+ fmt_q name));
    [reflexivity|].
  destruct (emitterTemplates_lookup (TokenTypeEmitter 0) _ eq_refl)
    as (template & Hlookup & _ & ->).
  assert (Hloop : ∀ r0 : Rule,
            Rule_Type r0 = None →
            Rule_UnmarshalXML_loop 3 r0
              [StartTok (mkStartElement "token" [mkAttr "type" name]);
               EndTok "token"; EndTok "rule"]
            = Err ("unknown TokenType " +:+ fmt_q name)).
  { intros r0 Hr0. cbn [Rule_UnmarshalXML_loop Token_ Name].
    rewrite Hlookup, Hr0.
    unfold DecodeElement_emitter, unmarshalInterface, TokenType_UnmarshalXML,
      DecodeElement_xmlTokenType.
    change (Skip [EndTok "token"; EndTok "rule"])
      with (Done (A:=Decoder) [EndTok "rule"]).
    cbn [mbind Errored_bind xmlTokenType_Type Attrs].
    change (attr_field "type" [mkAttr "type" name]) with name.
    by rewrite (TokenType_lookup_unknown name Hunknown). }
  unfold Rule_UnmarshalXML, rule_start. cbn [Pattern Attrs length].
  destruct (decide (pattern = "")) as [->|Hpattern].
  - cbn [List.find]. by rewrite Hloop.
  - cbn [List.find Attr_Name]. rewrite bool_decide_eq_true_2 by reflexivity.
    by rewrite Hloop.
Qed.

(** X16: on a match without capture groups ([NamedGroups] holds the whole
    match alone), by-group-names gives all of [groups] to the emitter bound
    to ["0"] and chains its one iterator; when ["0"] is not bound it yields
    one [Error] token with the whole match. *)
Theorem byGroupNames_Emit_whole_match
  (emitters : list (string * option Emitter)) (whole : string)
  (caps : list string) (state : LexerState) :
  size (NamedGroups state) = 1%nat →
  (∀ e, map_get "0" emitters = Some (Some e) →
     Emit (ByGroupNames emitters) (whole :: caps) state =
     (fun it => Concaterator [it]) <$> Emit e (whole :: caps) state)
  ∧ (map_get "0" emitters = None →
     Emit (ByGroupNames emitters) (whole :: caps) state =
     Ok (Some [mkToken Error whole])).
Proof.
  intros Hsize. rewrite (byGroupNames_Emit_no_groups _ _ _ Hsize). split.
  - intros e ->. by destruct (Emit e (whole :: caps) state).
  - intros ->. cbn.
    exact (f_equal Ok (Concaterator_tokens [[mkToken Error whole]])).
Qed.

End Chroma.

(** ** Examples *)

Lemma example_Concaterator_tokens (its : list (list Token)) :
  example_Concaterator (Some <$> its) = Some (concat its).
Proof.
  unfold example_Concaterator.
  replace (mapM id (Some <$> its)) with (Some its); [reflexivity|].
  symmetry. apply mapM_Some. induction its; constructor; auto.
Defined.

Lemma example_TokenType_names_distinct (t1 t2 : TokenType) (name : string) :
  example_TokenType_map !! t1 = Some name →
  example_TokenType_map !! t2 = Some name → t1 = t2.
Proof.
  unfold example_TokenType_map. intros H1 H2.
  repeat (apply lookup_insert_Some in H1 as [[<- <-]|[? H1]]);
    try (apply lookup_singleton_Some in H1 as [<- <-]);
    repeat (apply lookup_insert_Some in H2 as [[<- ?]|[? H2]]);
    try (apply lookup_singleton_Some in H2 as [<- ?]);
    congruence.
Defined.

(** Scenario C of the specification: two groups, one emitter. *)
Lemma byGroups_Emit_count_mismatch_witness :
  Emit example_Error example_Concaterator
    (ByGroups [Some (TokenTypeEmitter Keyword)]) ["ab"; "a"; "b"]
    no_groups_state
  = Ok (Some [mkToken example_Error "ab"]).
Proof.
  apply (byGroups_Emit_count_mismatch example_Error example_Concaterator
           example_Concaterator_tokens).
  cbn. discriminate.
Defined.

Lemma byGroups_Emit_by_position_witness :
  Emit example_Error example_Concaterator
    (ByGroups [Some (TokenTypeEmitter Keyword); None;
               Some (TokenTypeEmitter Text)])
    ["a=1"; "a"; "="; "1"] no_groups_state
  = Ok (Some [mkToken Keyword "a"; mkToken Text "1"]).
Proof.
  rewrite (byGroups_Emit_by_position example_Error example_Concaterator)
    by reflexivity.
  reflexivity.
Defined.

Lemma UsingByGroup_count_mismatch_witness :
  Emit example_Error example_Concaterator
    (UsingByGroup example_Error example_Concaterator (fun _ => Some go_lexer)
       1 2 [Some (TokenTypeEmitter Text)])
    ["ab"; "a"; "b"] no_groups_state
  = Panic (PanicString UsingByGroup_message)
  ∧ Emit example_Error example_Concaterator
      (ByGroups [Some (TokenTypeEmitter Text)]) ["ab"; "a"; "b"] no_groups_state
    = Ok (Some [mkToken example_Error "ab"]).
Proof.
  destruct (UsingByGroup_count_mismatch example_Error example_Concaterator
              (fun _ => Some go_lexer) 1 2 [Some (TokenTypeEmitter Text)]
              ["ab"; "a"; "b"] no_groups_state) as [Hpanic Hsoft].
  - vm_compute. discriminate.
  - split; [exact Hpanic|]. exact (Hsoft "ab" ["a"; "b"] eq_refl).
Defined.

Lemma using_Tokenise_failure_panics_witness :
  Emit example_Error example_Concaterator (Using broken_lexer) ["x"]
    key_value_state
  = Panic (PanicError "no such state")
  ∧ Emit example_Error example_Concaterator (UsingSelf "block") ["x"]
      key_value_state
    = Panic (PanicError "no such state").
Proof.
  destruct (using_Tokenise_failure_panics example_Error example_Concaterator
              broken_lexer "x" [] key_value_state "no such state")
    as (Husing & Hself & _).
  split; [exact (Husing eq_refl) | exact (Hself "block" eq_refl)].
Defined.

Lemma key_value_state_size : size (NamedGroups key_value_state) = 3%nat.
Proof. vm_compute. reflexivity. Defined.

Lemma byGroupNames_Emit_named_groups_witness :
  ∃ parts : list (Result (option Iterator)),
    length parts = 2%nat
    ∧ Emit example_Error example_Concaterator
        (ByGroupNames [("value", Some (TokenTypeEmitter Text))])
        ["k=v"; "k"; "v"] key_value_state
      = example_Concaterator <$> gather parts
    ∧ parts !! 0%nat = Some (Ok (Some (Some [mkToken example_Error "k"])))
    ∧ parts !! 1%nat = Some (Ok (Some (Some [mkToken Text "v"]))).
Proof.
  destruct (byGroupNames_Emit_named_groups example_Error example_Concaterator
              [("value", Some (TokenTypeEmitter Text))] ["k=v"; "k"; "v"]
              key_value_state
              (mkCompiledRule (mkRegexp (fun i =>
                 if i =? 1 then "key" else if i =? 2 then "value" else ""))))
    as (parts & Hlen & Hemit & Hparts).
  - rewrite key_value_state_size. lia.
  - vm_compute. reflexivity.
  - rewrite key_value_state_size in Hlen, Hparts.
    exists parts. split; [exact Hlen|]. split; [exact Hemit|]. split.
    + destruct (Hparts 1%nat ltac:(lia)) as (Hmissing & _ & _).
      exact (Hmissing eq_refl).
    + destruct (Hparts 2%nat ltac:(lia)) as (_ & _ & Hfound).
      exact (Hfound (TokenTypeEmitter Text) eq_refl).
Defined.

(** A fenced block [```go ... ```]: group 1 names the sub-lexer, group 2
    is the code. *)
Lemma UsingByGroup_code_group_witness :
  Emit example_Error example_Concaterator
    (UsingByGroup example_Error example_Concaterator (fun _ => None) 1 2
       [Some (TokenTypeEmitter LiteralString); Some (TokenTypeEmitter Text)])
    ["go:x"; "go"; "x"] no_groups_state
  = Ok (Some [mkToken LiteralString "go"; mkToken Text "x"])
  ∧ Emit example_Error example_Concaterator
      (UsingByGroup example_Error example_Concaterator
         (fun name => if decide (name = "go") then Some go_lexer else None) 1 2
         [Some (TokenTypeEmitter LiteralString); Some (TokenTypeEmitter Text)])
      ["go:x"; "go"; "x"] no_groups_state
    = Ok (Some [mkToken LiteralString "go"; mkToken Keyword "x"]).
Proof.
  split.
  - destruct (UsingByGroup_code_group example_Error example_Concaterator
                (fun _ => None) 1 2
                [Some (TokenTypeEmitter LiteralString);
                 Some (TokenTypeEmitter Text)]
                "go:x" ["go"; "x"] no_groups_state "go" eq_refl eq_refl)
      as [Hnone _].
    rewrite (Hnone eq_refl). reflexivity.
  - destruct (UsingByGroup_code_group example_Error example_Concaterator
                (fun name => if decide (name = "go") then Some go_lexer else None)
                1 2
                [Some (TokenTypeEmitter LiteralString);
                 Some (TokenTypeEmitter Text)]
                "go:x" ["go"; "x"] no_groups_state "go" eq_refl eq_refl)
      as [_ Hsome].
    rewrite (Hsome go_lexer eq_refl). reflexivity.
Defined.

Lemma TokenType_xml_canonical_name_witness :
  TokenType_MarshalXML example_TokenType_String Keyword []
    (mkStartElement "token" [])
  = Done [StartTok (mkStartElement "token" [mkAttr "type" "Keyword"]);
          EndTok "token"]
  ∧ TokenType_UnmarshalXML (map_to_list example_TokenType_map)
      [EndTok "token"] (mkStartElement "token" [mkAttr "type" "Keyword"])
    = Done (Keyword, [])
  ∧ TokenType_UnmarshalXML (map_to_list example_TokenType_map)
      [EndTok "token"] (mkStartElement "token" [mkAttr "type" "Colour"])
    = Err ("unknown TokenType " +:+ fmt_q "Colour").
Proof.
  destruct (TokenType_xml_canonical_name example_TokenType_map
              (map_to_list example_TokenType_map) example_TokenType_String)
    as (Hwrite & Hunknown & Hknown & _).
  - reflexivity.
  - intros t name Ht. unfold example_TokenType_String. by rewrite Ht.
  - exact example_TokenType_names_distinct.
  - split; [|split].
    + apply (Hwrite Keyword "Keyword" [] (mkStartElement "token" []));
        [reflexivity | discriminate].
    + apply (Hknown [EndTok "token"]
               (mkStartElement "token" [mkAttr "type" "Keyword"]) [] Keyword);
        reflexivity.
    + apply (Hunknown [EndTok "token"]
               (mkStartElement "token" [mkAttr "type" "Colour"]) []);
        [reflexivity|].
      intros t Ht. cbn in Ht. unfold example_TokenType_map in Ht.
      repeat (apply lookup_insert_Some in Ht as [[_ Ht]|[_ Ht]];
              [discriminate|]).
      by rewrite lookup_empty in Ht.
Defined.

(** C1, on [using_table]: the table is written as one [using] element
    carrying the lexer's name, and what is read back has that name and no
    lexer ([lexer] is tagged [xml:"-"], to be looked up when deserialising):
    the table read back is not the table written. *)
Theorem Rules_round_trip_drops_Using_lexer :
  ∃ data,
    Marshal_Rules example_TokenType_String no_MutatorKind
      no_EncodeElement_mutator (map_to_list using_table) = Done data
    ∧ Unmarshal_Rules (map_to_list example_TokenType_map) no_MutatorKind
        no_DecodeElement_mutator data ∅
      = Done {[ "root" := [mkRule "x" (Some (usingEmitter "go" None)) None] ]}
    ∧ ({[ "root" := [mkRule "x" (Some (usingEmitter "go" None)) None] ]} : Rules)
      ≠ using_table.
Proof.
  eexists. split; [vm_compute; reflexivity|]. split.
  - vm_compute. reflexivity.
  - unfold using_table. intros Heq.
    apply (f_equal (fun r : Rules => r !! "root")) in Heq.
    rewrite !lookup_singleton_eq in Heq. discriminate.
Qed.

(** C10, on a map whose entry for ["0"] is [nil] and a match without
    capture groups: the entry is found and its [Emit] is called without a
    test for [nil], where the loop over named groups tests it. *)
Theorem byGroupNames_Emit_nil_entry_panics :
  ∀ (Error : TokenType) (Concaterator : list Iterator → Iterator),
    Emit Error Concaterator (ByGroupNames [("0", None)]) ["x"] no_groups_state
    = Panic nil_dereference.
Proof.
  intros Error Concaterator.
  rewrite byGroupNames_Emit_no_groups by (vm_compute; reflexivity).
  reflexivity.
Qed.

(** ** Examples of the further properties *)

Lemma example_TokenType_String_canonical (t : TokenType) (name : string) :
  example_TokenType_map !! t = Some name → example_TokenType_String t = name.
Proof. intros Ht. unfold example_TokenType_String. by rewrite Ht. Defined.

Lemma example_TokenType_no_Colour (t : TokenType) :
  example_TokenType_map !! t ≠ Some "Colour".
Proof.
  intros Ht. unfold example_TokenType_map in Ht.
  repeat (apply lookup_insert_Some in Ht as [[_ Ht]|[_ Ht]]; [discriminate|]).
  apply lookup_singleton_Some in Ht as [_ Ht]. discriminate.
Defined.

Lemma digits_rule_plain :
  plain_rule example_TokenType_map (mkRule "\d+" (Some (TokenTypeEmitter Text)) None).
Proof. split; [by exists "Text" | reflexivity]. Defined.

Lemma nested_rule_plain :
  plain_rule example_TokenType_map (mkRule "" (Some (UsingSelf "root")) None).
Proof. by split. Defined.

Lemma before_EOF_all (tokens : list Token) :
  Forall (fun token => token ≠ example_EOF) tokens → before_EOF tokens = tokens.
Proof.
  induction 1 as [|token tokens Htoken _ IH]; [reflexivity|].
  cbn [before_EOF]. by rewrite decide_False, IH.
Defined.

Lemma example_Concaterator_tokens_before_EOF (its : list (list Token)) :
  Forall (Forall (fun token => token ≠ example_EOF)) its →
  example_stopping_Concaterator (Some <$> its) = Some (concat its).
Proof.
  intros Hits. unfold example_stopping_Concaterator.
  replace (mapM id (Some <$> its)) with (Some its).
  - cbn [fmap option_fmap option_map]. do 2 f_equal.
    induction Hits as [|tokens its Htokens _ IH]; [reflexivity|].
    cbn [fmap list_fmap]. by rewrite before_EOF_all, IH.
  - symmetry. apply mapM_Some. clear Hits. induction its; constructor; auto.
Defined.

Lemma byGroups_Emit_token_types_witness :
  Emit example_Error example_stopping_Concaterator
    (ByGroups [Some (TokenTypeEmitter Keyword); Some (TokenTypeEmitter Text)])
    ["a1"; "a"; "1"] no_groups_state
  = Ok (Some [mkToken Keyword "a"; mkToken Text "1"]).
Proof.
  apply (byGroups_Emit_token_types example_Error example_stopping_Concaterator
           example_EOF example_Concaterator_tokens_before_EOF
           [Keyword; Text] "a1" ["a"; "1"] no_groups_state eq_refl).
  repeat constructor; discriminate.
Defined.

Lemma byGroupNames_Emit_rule_out_of_range_witness :
  Emit example_Error example_Concaterator
    (ByGroupNames [("key", Some (TokenTypeEmitter Keyword))]) ["k"; "k"]
    (mkLexerState broken_lexer ∅ "root" 0 {[ "0" := "k"; "key" := "k" ]})
  = Panic index_out_of_range.
Proof.
  apply byGroupNames_Emit_rule_out_of_range.
  - vm_compute. lia.
  - right. vm_compute. discriminate.
Defined.

Lemma UsingByGroup_name_group_out_of_range_witness :
  Emit example_Error example_Concaterator
    (UsingByGroup example_Error example_Concaterator (fun _ => Some go_lexer)
       5 2 [Some (TokenTypeEmitter LiteralString); Some (TokenTypeEmitter Text)])
    ["go:x"; "go"; "x"] no_groups_state
  = Panic index_out_of_range.
Proof.
  apply UsingByGroup_name_group_out_of_range.
  - reflexivity.
  - right. vm_compute. discriminate.
Defined.

Lemma UsingByGroup_sublexer_failure_panics_witness :
  Emit example_Error example_Concaterator
    (UsingByGroup example_Error example_Concaterator
       (fun _ => Some broken_lexer) 1 2
       [Some (TokenTypeEmitter LiteralString); Some (TokenTypeEmitter Text)])
    ["go:x"; "go"; "x"] no_groups_state
  = Panic (PanicError "no such state").
Proof.
  apply (UsingByGroup_sublexer_failure_panics example_Error example_Concaterator
           (fun _ => Some broken_lexer) 1
           [Some (TokenTypeEmitter LiteralString); Some (TokenTypeEmitter Text)]
           "go:x" ["go"; "x"] no_groups_state "go" broken_lexer 1%nat "x"
           "no such state" eq_refl eq_refl eq_refl eq_refl eq_refl).
  intros i group Hi Hgroup. destruct i as [|i]; [|lia].
  injection Hgroup as <-. by eexists.
Defined.

Lemma UsingByGroup_without_sublexer_is_ByGroups_witness :
  Emit example_Error example_Concaterator
    (UsingByGroup example_Error example_Concaterator (fun _ => None) 1 2
       [Some (TokenTypeEmitter LiteralString); Some (TokenTypeEmitter Text)])
    ["go:x"; "go"; "x"] no_groups_state
  = Emit example_Error example_Concaterator
      (ByGroups [Some (TokenTypeEmitter LiteralString);
                 Some (TokenTypeEmitter Text)])
      ["go:x"; "go"; "x"] no_groups_state.
Proof.
  exact (UsingByGroup_without_sublexer_is_ByGroups example_Error
           example_Concaterator (fun _ => None) 1 2
           [TokenTypeEmitter LiteralString; TokenTypeEmitter Text]
           "go:x" ["go"; "x"] no_groups_state "go" eq_refl eq_refl eq_refl).
Defined.

Lemma Rules_MarshalXML_format_witness :
  Rules_MarshalXML example_TokenType_String no_MutatorKind
    no_EncodeElement_mutator
    [("root", [mkRule "\d+" (Some (TokenTypeEmitter Text)) None;
               mkRule "" (Some (UsingSelf "root")) None])] []
  = Done
      [StartTok (mkStartElement "rules" []);
       StartTok (mkStartElement "state" [mkAttr "name" "root"]);
       StartTok (mkStartElement "rule" [mkAttr "pattern" "\d+"]);
       StartTok (mkStartElement "token" [mkAttr "type" "Text"]);
       EndTok "token"; EndTok "rule";
       StartTok (mkStartElement "rule" []);
       StartTok (mkStartElement "usingself" [mkAttr "state" "root"]);
       EndTok "usingself"; EndTok "rule";
       EndTok "state"; EndTok "rules"].
Proof.
  apply (Rules_MarshalXML_format example_TokenType_map example_TokenType_String
           no_MutatorKind no_EncodeElement_mutator
           [("root", [mkRule "\d+" (Some (TokenTypeEmitter Text)) None;
                      mkRule "" (Some (UsingSelf "root")) None])] []).
  repeat constructor.
  - exact (proj1 digits_rule_plain).
Defined.

Lemma Rule_round_trip_plain_witness :
  ∃ data,
    Marshal_Rule example_TokenType_String no_MutatorKind
      no_EncodeElement_mutator
      (mkRule "\d+" (Some (TokenTypeEmitter Text)) None) = Done data
    ∧ Unmarshal_Rule (map_to_list example_TokenType_map) no_MutatorKind
        no_DecodeElement_mutator (on_the_wire example_xml_text data)
        (mkRule "" None None)
      = Done (mkRule "\d+" (Some (TokenTypeEmitter Text)) None).
Proof.
  apply (Rule_round_trip_plain example_TokenType_map
           (map_to_list example_TokenType_map) example_TokenType_String
           no_MutatorKind no_EncodeElement_mutator no_DecodeElement_mutator
           example_xml_text
           (reflexivity _) example_TokenType_String_canonical
           example_TokenType_names_distinct _ digits_rule_plain).
  split; reflexivity.
Defined.

Lemma Rules_round_trip_plain_witness :
  ∃ data,
    Marshal_Rules example_TokenType_String no_MutatorKind
      no_EncodeElement_mutator
      (map_to_list
         ({[ "root" := [mkRule "\d+" (Some (TokenTypeEmitter Text)) None;
                        mkRule "" (Some (UsingSelf "root")) None];
             "string" := [mkRule "[^x]+"
                            (Some (TokenTypeEmitter LiteralString)) None] ]}
          : Rules)) = Done data
    ∧ Unmarshal_Rules (map_to_list example_TokenType_map) no_MutatorKind
        no_DecodeElement_mutator (on_the_wire example_xml_text data) ∅
      = Done ({[ "root" := [mkRule "\d+" (Some (TokenTypeEmitter Text)) None;
                            mkRule "" (Some (UsingSelf "root")) None];
                 "string" := [mkRule "[^x]+"
                                (Some (TokenTypeEmitter LiteralString)) None] ]}
              : Rules).
Proof.
  apply (Rules_round_trip_plain example_TokenType_map
           (map_to_list example_TokenType_map) example_TokenType_String
           no_MutatorKind no_EncodeElement_mutator no_DecodeElement_mutator
           example_xml_text
           (reflexivity _) example_TokenType_String_canonical
           example_TokenType_names_distinct).
  - apply insert_non_empty.
  - reflexivity.
  - apply map_Forall_insert_2; [|apply map_Forall_singleton].
    + split; [reflexivity|]. split; [discriminate|].
      repeat constructor. exact (proj1 digits_rule_plain).
    + split; [reflexivity|]. split; [discriminate|].
      repeat constructor. by exists "LiteralString".
Defined.

Lemma Rules_UnmarshalXML_assigns_witness :
  Rules_UnmarshalXML_receiver (map_to_list example_TokenType_map) no_MutatorKind
    no_DecodeElement_mutator None
    [StartTok (mkStartElement "state" [mkAttr "name" "a"]);
     StartTok (mkStartElement "rule" [mkAttr "pattern" "1"]); EndTok "rule";
     EndTok "state";
     StartTok (mkStartElement "state" [mkAttr "name" "a"]);
     StartTok (mkStartElement "rule" [mkAttr "pattern" "2"]); EndTok "rule";
     EndTok "state";
     EndTok "rules"]
    (mkStartElement "rules" []) = Panic nil_map_assignment
  ∧ ∃ r' : Rules,
      Rules_UnmarshalXML_receiver (map_to_list example_TokenType_map)
        no_MutatorKind no_DecodeElement_mutator
        (Some ({[ "old" := [mkRule "x" None None] ]} : Rules))
        [StartTok (mkStartElement "state" [mkAttr "name" "a"]);
         StartTok (mkStartElement "rule" [mkAttr "pattern" "1"]); EndTok "rule";
         EndTok "state";
         StartTok (mkStartElement "state" [mkAttr "name" "a"]);
         StartTok (mkStartElement "rule" [mkAttr "pattern" "2"]); EndTok "rule";
         EndTok "state";
         EndTok "rules"]
        (mkStartElement "rules" []) = Ok (Done (Some r', []))
      ∧ r' !! "old" = Some [mkRule "x" None None]
      ∧ r' !! "a" = Some [mkRule "2" None None].
Proof.
  destruct (Rules_UnmarshalXML_assigns (map_to_list example_TokenType_map)
              no_MutatorKind no_DecodeElement_mutator
              [StartTok (mkStartElement "state" [mkAttr "name" "a"]);
               StartTok (mkStartElement "rule" [mkAttr "pattern" "1"]);
               EndTok "rule"; EndTok "state";
               StartTok (mkStartElement "state" [mkAttr "name" "a"]);
               StartTok (mkStartElement "rule" [mkAttr "pattern" "2"]);
               EndTok "rule"; EndTok "state";
               EndTok "rules"]
              (mkStartElement "rules" [])
              (mkXmlRules [mkXmlRuleState "a" [mkRule "1" None None];
                           mkXmlRuleState "a" [mkRule "2" None None]])
              [])
    as (Hnil & _ & Hmap).
  - vm_compute. reflexivity.
  - split; [apply Hnil; discriminate|].
    destruct (Hmap ({[ "old" := [mkRule "x" None None] ]} : Rules))
      as (r' & Hdecode & _ & Hother & Hlast).
    exists r'. split; [exact Hdecode|]. split.
    + rewrite Hother; [apply lookup_singleton_eq|].
      cbn. intros Hin.
      repeat (apply elem_of_cons in Hin as [Hin|Hin]; [discriminate|]).
      by apply elem_of_nil in Hin.
    + apply (Hlast [mkXmlRuleState "a" [mkRule "1" None None]]
               (mkXmlRuleState "a" [mkRule "2" None None]) [] eq_refl).
      cbn. apply not_elem_of_nil.
Defined.

Lemma Rule_UnmarshalXML_duplicate_emitter_witness :
  Rule_UnmarshalXML_loop (map_to_list example_TokenType_map) no_MutatorKind
    no_DecodeElement_mutator 5 (mkRule "" None None)
    [StartTok (mkStartElement "token" [mkAttr "type" "Text"]); EndTok "token";
     StartTok (mkStartElement "token" [mkAttr "type" "Keyword"]); EndTok "token";
     EndTok "rule"]
  = Err ("duplicate emitter " +:+ fmt_q "token").
Proof.
  apply (Rule_UnmarshalXML_duplicate_emitter example_TokenType_map
           (map_to_list example_TokenType_map) example_TokenType_String
           no_MutatorKind no_DecodeElement_mutator
           (reflexivity _) example_TokenType_String_canonical
           example_TokenType_names_distinct
           3%nat (mkRule "" None None) (TokenTypeEmitter Text)
           (TokenTypeEmitter Keyword)
           (mkStartElement "token" [mkAttr "type" "Keyword"])
           [EndTok "token"; EndTok "rule"]).
  - by exists "Text".
  - reflexivity.
  - reflexivity.
Defined.

Lemma byGroups_read_back_nil_witness :
  ∃ n, byGroupsEmitter [None; None] = byGroupsEmitter (replicate n None)
       ∧ ∀ whole caps state,
           length caps = n →
           Emit example_Error example_Concaterator
             (byGroupsEmitter [None; None]) (whole :: caps) state
           = Ok (example_Concaterator []).
Proof.
  exact (byGroups_read_back_nil example_Error example_Concaterator
           (map_to_list example_TokenType_map) (byGroupsEmitter [])
           [StartTok (mkStartElement "emit" [mkAttr "type" "Keyword"]);
            EndTok "emit";
            StartTok (mkStartElement "emit" [mkAttr "type" "Text"]);
            EndTok "emit";
            EndTok "bygroups"]
           (mkStartElement "bygroups" []) (byGroupsEmitter [None; None]) []
           eq_refl eq_refl).
Defined.

Lemma Unmarshal_Rule_unknown_TokenType_witness :
  Unmarshal_Rule (map_to_list example_TokenType_map) no_MutatorKind
    no_DecodeElement_mutator
    [StartTok (mkStartElement "rule" [mkAttr "pattern" "x"]);
     StartTok (mkStartElement "token" [mkAttr "type" "Colour"]);
     EndTok "token"; EndTok "rule"] (mkRule "" None None)
  = Err ("unknown TokenType " +:+ fmt_q "Colour").
Proof.
  exact (Unmarshal_Rule_unknown_TokenType example_TokenType_map
           (map_to_list example_TokenType_map) no_MutatorKind
           no_DecodeElement_mutator (reflexivity _) "x" "Colour"
           (mkRule "" None None) example_TokenType_no_Colour eq_refl).
Defined.

Lemma byGroupNames_Emit_whole_match_witness :
  Emit example_Error example_Concaterator
    (ByGroupNames [("0", Some (TokenTypeEmitter Keyword))]) ["x"]
    no_groups_state
  = Ok (Some [mkToken Keyword "x"])
  ∧ Emit example_Error example_Concaterator
      (ByGroupNames [("1", Some (TokenTypeEmitter Keyword))]) ["x"]
      no_groups_state
    = Ok (Some [mkToken example_Error "x"]).
Proof.
  split.
  - destruct (byGroupNames_Emit_whole_match example_Error example_Concaterator
                example_Concaterator_tokens
                [("0", Some (TokenTypeEmitter Keyword))] "x" [] no_groups_state)
      as [Hbound _]; [vm_compute; reflexivity|].
    exact (Hbound (TokenTypeEmitter Keyword) eq_refl).
  - destruct (byGroupNames_Emit_whole_match example_Error example_Concaterator
                example_Concaterator_tokens
                [("1", Some (TokenTypeEmitter Keyword))] "x" [] no_groups_state)
      as [_ Hmissing]; [vm_compute; reflexivity|].
    exact (Hmissing eq_refl).
Defined.
